(** * Direct messaging: conversation aggregation and read state

    A shallow embedding of [src/hooks/useDirectMessages.ts] together with the
    table and the row-level-security policies of the migration
    [20260104081115_..sql] that creates [public.direct_messages].

    The hook is a React hook: its callbacks read the relational store through
    the Supabase client and write the results into component state.  Here the
    store is an explicit value [Db], the component state an explicit value
    [HookState], and every callback a function that takes both and returns
    both.  One callback invocation is one atomic step: interleavings of two
    callbacks between their [await]s are outside the model, and so are network
    failures of the client.

    Of the store the model keeps what the hook can observe: the policies,
    the foreign keys and the primary key of the table, the refusal of a body
    that the column type cannot hold, and the order of the table, which the
    answers to the hook's queries follow among rows of equal [created_at]. *)

From stdpp Require Import base decidable option list relations sorting gmap strings.
From Stdlib Require Import ZArith Lia Ascii String.

Local Open Scope string_scope.
Local Open Scope list_scope.
Local Open Scope Z_scope.

(** ** JavaScript strings

    A body is a sequence of code units; the model covers the code units
    0..255.  In that range the white space and line terminators that
    [String.prototype.trim] strips are TAB, LF, VT, FF, CR, SP and NBSP. *)

Definition is_white_space (c : ascii) : bool :=
  match N_of_ascii c with
  | 9%N | 10%N | 11%N | 12%N | 13%N | 32%N | 160%N => true
  | _ => false
  end.

Fixpoint trimStart (s : string) : string :=
  match s with
  | EmptyString => EmptyString
  | String c s' => if is_white_space c then trimStart s' else s
  end.

Fixpoint trimEnd (s : string) : string :=
  match s with
  | EmptyString => EmptyString
  | String c s' =>
      match trimEnd s' with
      | EmptyString => if is_white_space c then EmptyString else String c EmptyString
      | t => String c t
      end
  end.

(** [messageText.trim()] *)
Definition trim (s : string) : string := trimEnd (trimStart s).

(** Truthiness of a string: the empty string is falsy. *)
Definition truthy (s : string) : bool := negb (bool_decide (s = "")).

(** [a || d] where [a] is a string that may be null or undefined. *)
Definition or_default (a : option string) (d : string) : string :=
  match a with
  | Some s => if truthy s then s else d
  | None => d
  end.

(** [a || null] *)
Definition or_null (a : option string) : option string :=
  match a with
  | Some s => if truthy s then Some s else None
  | None => None
  end.

(** ** Rows and records *)

(** [interface DirectMessage]; a row of [public.direct_messages] is a
    [DirectMessage.t] whose two optional names are absent.  [created_at] is a
    [timestamptz], kept as its count of microseconds. *)
Module DirectMessage.
Record t : Type := mk {
  id : string;
  sender_id : string;
  recipient_id : string;
  message : string;
  is_read : bool;
  created_at : Z;
  sender_name : option string;
  recipient_name : option string;
}.

#[export] Instance eq_dec : EqDecision t.
Proof. solve_decision. Defined.

Definition set_is_read (b : bool) (m : t) : t :=
  mk (id m) (sender_id m) (recipient_id m) (message m) b (created_at m)
     (sender_name m) (recipient_name m).

Definition set_sender_name (n : option string) (m : t) : t :=
  mk (id m) (sender_id m) (recipient_id m) (message m) (is_read m) (created_at m)
     n (recipient_name m).

Definition set_recipient_name (n : option string) (m : t) : t :=
  mk (id m) (sender_id m) (recipient_id m) (message m) (is_read m) (created_at m)
     (sender_name m) n.
End DirectMessage.

(** [interface Conversation]; [unread_count] is a JavaScript number that only
    ever counts, a natural number here. *)
Module Conversation.
Record t : Type := mk {
  doctor_id : string;
  doctor_name : string;
  hospital_name : option string;
  specialty : option string;
  last_message : string;
  last_message_time : Z;
  unread_count : nat;
}.

#[export] Instance eq_dec : EqDecision t.
Proof. solve_decision. Defined.

Definition set_unread_count (n : nat) (c : t) : t :=
  mk (doctor_id c) (doctor_name c) (hospital_name c) (specialty c)
     (last_message c) (last_message_time c) n.
End Conversation.

(** The columns of [profiles] and [hospitals] that the hook selects. *)
Module Profile.
Record t : Type := mk {
  id : string;
  full_name : string;
  specialty : option string;
  hospital_id : option string;
}.
End Profile.

Module Hospital.
Record t : Type := mk {
  id : string;
  name : string;
}.
End Hospital.

(** ** The relational store

    [direct_messages] lists the rows of the table in table order: the order
    in which the store wrote the current version of each row. *)

Record Db : Type := mkDb {
  auth_users : gset string;
  direct_messages : list DirectMessage.t;
  profiles : list Profile.t;
  hospitals : list Hospital.t;
}.

Definition with_direct_messages (rows : list DirectMessage.t) (db : Db) : Db :=
  mkDb (auth_users db) rows (profiles db) (hospitals db).

(** The errors the store reports back to the client. *)
Inductive PostgrestError : Type :=
  | UntranslatableCharacter
  | ForeignKeyViolation
  | UniqueViolation
  | RlsViolation.

Definition error_message (e : PostgrestError) : string :=
  match e with
  | UntranslatableCharacter => "unsupported Unicode escape sequence"
  | ForeignKeyViolation => "insert or update on table violates foreign key constraint"
  | UniqueViolation => "duplicate key value violates unique constraint"
  | RlsViolation => "new row violates row-level security policy"
  end.

(** A column of type [text] cannot hold the code unit 0. *)
Fixpoint has_nul (s : string) : bool :=
  match s with
  | EmptyString => false
  | String c s' => (N_of_ascii c =? 0)%N || has_nul s'
  end.

(** [auth.uid()] of a request is the session's user, or NULL. *)
Definition Auth : Type := option string.

(** Policy "Users can view their messages":
    [USING (sender_id = auth.uid() OR recipient_id = auth.uid())]. *)
Definition can_view (auth : Auth) (m : DirectMessage.t) : bool :=
  bool_decide (auth = Some (DirectMessage.sender_id m))
  || bool_decide (auth = Some (DirectMessage.recipient_id m)).

(** Policy "Users can send messages": [WITH CHECK (sender_id = auth.uid())]. *)
Definition can_send (auth : Auth) (m : DirectMessage.t) : bool :=
  bool_decide (auth = Some (DirectMessage.sender_id m)).

(** Policy "Users can mark messages as read":
    [USING (recipient_id = auth.uid())]. *)
Definition can_mark_read (auth : Auth) (m : DirectMessage.t) : bool :=
  bool_decide (auth = Some (DirectMessage.recipient_id m)).

(** [ORDER BY created_at]: SQL leaves the order of rows with equal
    [created_at] to the store, which sorts what it reads from the table; the
    model sorts the rows in table order with a stable insertion sort, so
    equal rows keep the order of the table. *)
Fixpoint insert_by (le : DirectMessage.t -> DirectMessage.t -> bool)
    (x : DirectMessage.t) (l : list DirectMessage.t) : list DirectMessage.t :=
  match l with
  | [] => [x]
  | y :: l' => if le x y then x :: l else y :: insert_by le x l'
  end.

Definition sort_by (le : DirectMessage.t -> DirectMessage.t -> bool)
    (l : list DirectMessage.t) : list DirectMessage.t :=
  foldr (insert_by le) [] l.

Definition created_desc (x y : DirectMessage.t) : bool :=
  DirectMessage.created_at y <=? DirectMessage.created_at x.

Definition created_asc (x y : DirectMessage.t) : bool :=
  DirectMessage.created_at x <=? DirectMessage.created_at y.

(** [.order('created_at', { ascending })] *)
Definition order_created_at (ascending : bool) (l : list DirectMessage.t)
    : list DirectMessage.t :=
  sort_by (if ascending then created_asc else created_desc) l.

(** [.or(`sender_id.eq.${userId},recipient_id.eq.${userId}`)] *)
Definition involves (userId : string) (m : DirectMessage.t) : bool :=
  bool_decide (DirectMessage.sender_id m = userId)
  || bool_decide (DirectMessage.recipient_id m = userId).

(** [.or(`and(sender_id.eq.${userId},recipient_id.eq.${doctorId}),
          and(sender_id.eq.${doctorId},recipient_id.eq.${userId})`)] *)
Definition in_thread (userId doctorId : string) (m : DirectMessage.t) : bool :=
  (bool_decide (DirectMessage.sender_id m = userId)
   && bool_decide (DirectMessage.recipient_id m = doctorId))
  || (bool_decide (DirectMessage.sender_id m = doctorId)
      && bool_decide (DirectMessage.recipient_id m = userId)).

(** The query of [fetchConversations] (lines 41-45), under the SELECT policy. *)
Definition select_involving (auth : Auth) (userId : string) (db : Db)
    : list DirectMessage.t :=
  order_created_at false
    (filter (fun m => can_view auth m && involves userId m) (direct_messages db)).

(** The query of [fetchMessages] (lines 118-122), under the SELECT policy. *)
Definition select_thread (auth : Auth) (userId doctorId : string) (db : Db)
    : list DirectMessage.t :=
  order_created_at true
    (filter (fun m => can_view auth m && in_thread userId doctorId m) (direct_messages db)).

(** The rows an update with the filter [.in('id', ids)] writes: those the
    filter selects and the UPDATE policy accepts. *)
Definition marks_read (auth : Auth) (ids : list string) (m : DirectMessage.t) : bool :=
  bool_decide (DirectMessage.id m ∈ ids) && can_mark_read auth m.

(** [.update({ is_read: true }).in('id', ids)] under the UPDATE policy.  A row
    the policy's USING expression rejects is not available for modification:
    the statement passes over it and reports no error for it.  Of every row
    it updates, read already or not, the store writes a new version: in table
    order the updated rows come after the rows the statement did not touch,
    here in the order in which a scan of the table finds them.  The client
    gets back the [error] of the statement, which is null, and the hook never
    looks at it. *)
Definition update_is_read_in (auth : Auth) (ids : list string) (db : Db)
    : option PostgrestError * Db :=
  (None,
   with_direct_messages
     (filter (fun m => negb (marks_read auth ids m)) (direct_messages db)
      ++ (DirectMessage.set_is_read true
            <$> filter (fun m => marks_read auth ids m) (direct_messages db)))
     db).

(** [.update({ is_read: true }).eq('id', id)] *)
Definition update_is_read_eq (auth : Auth) (id : string) (db : Db)
    : option PostgrestError * Db :=
  update_is_read_in auth [id] db.

(** [.insert({ sender_id, recipient_id, message })].  The store fills in the
    other columns: [id] with [gen_random_uuid()] and [created_at] with
    [now()], both given here by the caller of the model, and [is_read] with
    its default.  The insert is refused when the body holds a code unit
    that [text] cannot store, when the INSERT policy rejects the row, when a
    user id is not in [auth.users], or when the primary key is taken. *)
Definition insert_direct_message (auth : Auth) (uuid : string) (now : Z)
    (sender recipient body : string) (db : Db) : PostgrestError + Db :=
  let row := DirectMessage.mk uuid sender recipient body false now None None in
  if has_nul body then inl UntranslatableCharacter
  else if negb (can_send auth row) then inl RlsViolation
  else if negb (bool_decide (sender ∈ auth_users db)
                && bool_decide (recipient ∈ auth_users db))
  then inl ForeignKeyViolation
  else if bool_decide (uuid ∈ DirectMessage.id <$> direct_messages db)
  then inl UniqueViolation
  else inr (with_direct_messages (direct_messages db ++ [row]) db).

(** ** Component state of the hook *)

Record Toast : Type := mkToast {
  title : string;
  description : string;
  variant : string;
}.

(** The four [useState] cells and the toasts shown so far. *)
Record HookState : Type := mkHookState {
  messages : list DirectMessage.t;
  conversations : list Conversation.t;
  loading : bool;
  sending : bool;
  toasts : list Toast;
}.

Definition initial_state : HookState := mkHookState [] [] true false [].

Definition setMessages (v : list DirectMessage.t) (st : HookState) : HookState :=
  mkHookState v (conversations st) (loading st) (sending st) (toasts st).

Definition setConversations (v : list Conversation.t) (st : HookState) : HookState :=
  mkHookState (messages st) v (loading st) (sending st) (toasts st).

Definition setLoading (v : bool) (st : HookState) : HookState :=
  mkHookState (messages st) (conversations st) v (sending st) (toasts st).

Definition setSending (v : bool) (st : HookState) : HookState :=
  mkHookState (messages st) (conversations st) (loading st) v (toasts st).

Definition toast (t : Toast) (st : HookState) : HookState :=
  mkHookState (messages st) (conversations st) (loading st) (sending st) (toasts st ++ [t]).

(** ** JavaScript [Map] and [Set]

    A [Map] that is only read by key is a [gmap]; [new Map(entries)] lets a
    later entry replace an earlier one.  The [Map] of conversations is read
    back with [values()], in insertion order, so it is an association list. *)

Definition new_Map {V : Type} (entries : list (string * V)) : gmap string V :=
  foldl (fun m kv => <[kv.1 := kv.2]> m) ∅ entries.

(** [set.add(x)] on a [Set] listed in insertion order. *)
Definition set_add (x : string) (s : list string) : list string :=
  if bool_decide (x ∈ s) then s else s ++ [x].

Abbreviation ConversationMap := (list (string * Conversation.t)).

Fixpoint cm_get (k : string) (cm : ConversationMap) : option Conversation.t :=
  match cm with
  | [] => None
  | (k', c) :: cm' => if bool_decide (k' = k) then Some c else cm_get k cm'
  end.

Definition cm_has (k : string) (cm : ConversationMap) : bool :=
  match cm_get k cm with Some _ => true | None => false end.

(** [map.set(k, c)]: a present key keeps its place, a new key goes last. *)
Fixpoint cm_set (k : string) (c : Conversation.t) (cm : ConversationMap) : ConversationMap :=
  match cm with
  | [] => [(k, c)]
  | (k', c') :: cm' =>
      if bool_decide (k' = k) then (k', c) :: cm' else (k', c') :: cm_set k c cm'
  end.

(** Mutation of the object stored under [k], seen by every later read. *)
Fixpoint cm_update (f : Conversation.t -> Conversation.t) (k : string)
    (cm : ConversationMap) : ConversationMap :=
  match cm with
  | [] => []
  | (k', c) :: cm' =>
      if bool_decide (k' = k) then (k', f c) :: cm' else (k', c) :: cm_update f k cm'
  end.

Definition cm_values (cm : ConversationMap) : list Conversation.t := snd <$> cm.

(** ** fetchConversations (lines 33-109) *)

(** A profile row with the [hospital_name] the hook attaches to it. *)
Record ProfileEntry : Type := mkProfileEntry {
  entry_profile : Profile.t;
  entry_hospital_name : option string;
}.

(** Lines 55-59. *)
Definition collect_doctorIds (userId : string) (allMessages : list DirectMessage.t)
    : list string :=
  foldl (fun ids msg =>
           let ids1 := if bool_decide (DirectMessage.sender_id msg = userId) then ids
                       else set_add (DirectMessage.sender_id msg) ids in
           if bool_decide (DirectMessage.recipient_id msg = userId) then ids1
           else set_add (DirectMessage.recipient_id msg) ids1)
        [] allMessages.

(** Lines 62-75. *)
Definition build_profileMap (doctorIds : list string) (db : Db) : gmap string ProfileEntry :=
  let found := filter (fun p => bool_decide (Profile.id p ∈ doctorIds)) (profiles db) in
  let hospitalIds :=
    omap (fun p => match Profile.hospital_id p with
                   | Some h => if truthy h then Some h else None
                   | None => None
                   end) found in
  let found_hospitals :=
    filter (fun h => bool_decide (Hospital.id h ∈ hospitalIds)) (hospitals db) in
  let hospitalMap : gmap string string :=
    new_Map ((fun h => (Hospital.id h, Hospital.name h)) <$> found_hospitals) in
  new_Map
    ((fun p => (Profile.id p,
                mkProfileEntry p
                  (or_null (Profile.hospital_id p ≫= fun h => hospitalMap !! h))))
       <$> found).

(** [msg.sender_id === userId ? msg.recipient_id : msg.sender_id] *)
Definition otherDoctorId (userId : string) (msg : DirectMessage.t) : string :=
  if bool_decide (DirectMessage.sender_id msg = userId)
  then DirectMessage.recipient_id msg
  else DirectMessage.sender_id msg.

(** [msg.recipient_id === userId && !msg.is_read] *)
Definition counts_unread (userId : string) (msg : DirectMessage.t) : bool :=
  bool_decide (DirectMessage.recipient_id msg = userId) && negb (DirectMessage.is_read msg).

(** The object of lines 85-93. *)
Definition new_conversation (profileMap : gmap string ProfileEntry) (userId : string)
    (msg : DirectMessage.t) : Conversation.t :=
  let other := otherDoctorId userId msg in
  let profile := profileMap !! other in
  Conversation.mk other
    (or_default (Profile.full_name ∘ entry_profile <$> profile) "Unknown Doctor")
    (or_null (profile ≫= entry_hospital_name))
    (or_null (profile ≫= Profile.specialty ∘ entry_profile))
    (DirectMessage.message msg)
    (DirectMessage.created_at msg)
    0.

Definition incr_unread (c : Conversation.t) : Conversation.t :=
  Conversation.set_unread_count (Conversation.unread_count c + 1) c.

(** The body of the [forEach] of lines 80-101. *)
Definition conversation_step (profileMap : gmap string ProfileEntry) (userId : string)
    (cm : ConversationMap) (msg : DirectMessage.t) : ConversationMap :=
  let other := otherDoctorId userId msg in
  let cm1 := if cm_has other cm then cm
             else cm_set other (new_conversation profileMap userId msg) cm in
  if counts_unread userId msg then cm_update incr_unread other cm1 else cm1.

(** Lines 78-103: the list handed to [setConversations]. *)
Definition build_conversations (profileMap : gmap string ProfileEntry) (userId : string)
    (allMessages : list DirectMessage.t) : list Conversation.t :=
  cm_values (foldl (conversation_step profileMap userId) [] allMessages).

(** The conversation list a full rescan of the store yields for [userId]. *)
Definition rescan (userId : string) (db : Db) : list Conversation.t :=
  let allMessages := select_involving (Some userId) userId db in
  match allMessages with
  | [] => []
  | _ =>
      build_conversations
        (build_profileMap (collect_doctorIds userId allMessages) db) userId allMessages
  end.

(** [fetchConversations]: without a session user it returns at line 36; the
    [finally] clears [loading] on every path. *)
Definition fetchConversations (auth : Auth) (db : Db) (st : HookState) : HookState :=
  match auth with
  | None => setLoading false st
  | Some userId => setLoading false (setConversations (rescan userId db) st)
  end.

(** ** fetchMessages (lines 111-158) *)

(** Lines 127-140. *)
Definition with_names (userId doctorId : string) (db : Db) (data : list DirectMessage.t)
    : list DirectMessage.t :=
  let found := filter (fun p => bool_decide (Profile.id p ∈ [userId; doctorId])) (profiles db) in
  let profileMap : gmap string string :=
    new_Map ((fun p => (Profile.id p, Profile.full_name p)) <$> found) in
  (fun m =>
     DirectMessage.set_recipient_name
       (Some (or_default (profileMap !! DirectMessage.recipient_id m) "Unknown"))
       (DirectMessage.set_sender_name
          (Some (or_default (profileMap !! DirectMessage.sender_id m) "Unknown")) m))
    <$> data.

(** Line 143. *)
Definition unreadIds_of (userId : string) (data : list DirectMessage.t) : list string :=
  DirectMessage.id <$> filter (counts_unread userId) data.

Definition fetchMessages (auth : Auth) (doctorId : string) (db : Db) (st : HookState)
    : HookState * Db :=
  match auth with
  | None => (st, db)
  | Some userId =>
      let data := select_thread auth userId doctorId db in
      let st1 := setMessages (with_names userId doctorId db data) st in
      let unreadIds := unreadIds_of userId data in
      if (0 <? List.length unreadIds)%nat
      then (st1, (update_is_read_in auth unreadIds db).2)
      else (st1, db)
  end.

(** ** sendMessage (lines 160-189) *)

Definition sendMessage (auth : Auth) (uuid : string) (now : Z)
    (recipientId messageText : string) (db : Db) (st : HookState)
    : bool * HookState * Db :=
  if negb (truthy (trim messageText)) then (false, st, db)
  else
    let st1 := setSending true st in
    match auth with
    | None =>
        (false,
         setSending false (toast (mkToast "Send failed" "Not authenticated" "destructive") st1),
         db)
    | Some userId =>
        match insert_direct_message auth uuid now userId recipientId (trim messageText) db with
        | inr db' => (true, setSending false st1, db')
        | inl error =>
            (false,
             setSending false
               (toast (mkToast "Send failed"
                         (or_default (Some (error_message error)) "Failed to send message")
                         "destructive") st1),
             db)
        end
    end.

(** ** The realtime subscription (lines 202-261)

    [on_insert userId selectedDoctorId payload] is the callback registered for
    INSERT events by a session whose user is [userId] while
    [selectedDoctorId] is the hook's argument. *)

(** Lines 225-234: [.eq('id', sender).single()] yields a row only when
    exactly one matches. *)
Definition enrich (db : Db) (newMsg : DirectMessage.t) : DirectMessage.t :=
  let profile :=
    match filter (fun p => bool_decide (Profile.id p = DirectMessage.sender_id newMsg))
                 (profiles db) with
    | [p] => Some p
    | _ => None
    end in
  DirectMessage.set_sender_name
    (Some (or_default (Profile.full_name <$> profile) "Unknown")) newMsg.

(** Line 237. *)
Definition viewing (selectedDoctorId : option string) (newMsg : DirectMessage.t) : bool :=
  match selectedDoctorId with
  | Some sel =>
      truthy sel
      && (bool_decide (DirectMessage.sender_id newMsg = sel)
          || bool_decide (DirectMessage.recipient_id newMsg = sel))
  | None => false
  end.

Definition on_insert (userId : string) (selectedDoctorId : option string)
    (newMsg : DirectMessage.t) (db : Db) (st : HookState) : HookState * Db :=
  if bool_decide (DirectMessage.sender_id newMsg ≠ userId)
     && bool_decide (DirectMessage.recipient_id newMsg ≠ userId)
  then (st, db)
  else
    let enrichedMsg := enrich db newMsg in
    let '(st1, db1) :=
      if viewing selectedDoctorId newMsg then
        (setMessages (messages st ++ [enrichedMsg]) st,
         if bool_decide (DirectMessage.recipient_id newMsg = userId)
         then (update_is_read_eq (Some userId) (DirectMessage.id newMsg) db).2
         else db)
      else (st, db) in
    (fetchConversations (Some userId) db1 st1, db1).

(** ** The writes of the system

    One write to the store by any session: a send, the opening of a
    conversation, or the callback of the subscription.  [fetchConversations]
    only reads, and no other code of the repository touches the table. *)
Inductive store_step : Db -> Db -> Prop :=
  | step_sendMessage auth uuid now recipientId messageText db st :
      store_step db (sendMessage auth uuid now recipientId messageText db st).2
  | step_fetchMessages auth doctorId db st :
      store_step db (fetchMessages auth doctorId db st).2
  | step_on_insert userId selectedDoctorId newMsg db st :
      store_step db (on_insert userId selectedDoctorId newMsg db st).2.

(** ** A session of the owner

    The component that uses the hook passes [selectedDoctorId]; the hook's
    effects run [fetchConversations] on mount (lines 191-193),
    [fetchMessages] when a truthy [selectedDoctorId] is set (lines 195-199),
    and keep the subscription callback registered for the current
    [selectedDoctorId] (lines 202-261).  The model keeps the one callback
    registered last. *)

Record Session : Type := mkSession {
  selectedDoctorId : option string;
  hook : HookState;
}.

(** What happens around a session: some user sends a message, which the
    store announces to the session, or the owner opens a conversation. *)
Inductive Event : Type :=
  | Sent (sender uuid : string) (now : Z) (recipientId messageText : string)
  | Opened (doctorId : string).

Definition mount (userId : string) (db : Db) : Session :=
  mkSession None (fetchConversations (Some userId) db initial_state).

(** The row of an INSERT event: the row as the store created it. *)
Definition inserted_row (sender uuid : string) (now : Z) (recipientId messageText : string)
    : DirectMessage.t :=
  DirectMessage.mk uuid sender recipientId (trim messageText) false now None None.

Definition apply_event (userId : string) (ev : Event) (world : Session * Db)
    : Session * Db :=
  let '(sess, db) := world in
  match ev with
  | Sent sender uuid now recipientId messageText =>
      (* the sender's component state is the owner's when the owner sends *)
      let own := bool_decide (sender = userId) in
      let '(ok, st', db') :=
        sendMessage (Some sender) uuid now recipientId messageText db
          (if own then hook sess else initial_state) in
      let st1 := if own then st' else hook sess in
      if ok then
        let '(st2, db2) :=
          on_insert userId (selectedDoctorId sess)
            (inserted_row sender uuid now recipientId messageText) db' st1 in
        (mkSession (selectedDoctorId sess) st2, db2)
      else (mkSession (selectedDoctorId sess) st1, db')
  | Opened doctorId =>
      if truthy doctorId then
        let '(st1, db1) := fetchMessages (Some userId) doctorId db (hook sess) in
        (mkSession (Some doctorId) st1, db1)
      else (mkSession (Some doctorId) (hook sess), db)
  end.

Definition run (userId : string) (evs : list Event) (world : Session * Db) : Session * Db :=
  foldl (fun w ev => apply_event userId ev w) world evs.

(** * Vocabulary of the statements *)

(** The store's answer lists newer rows first. *)
Definition newer_first (x y : DirectMessage.t) : Prop :=
  DirectMessage.created_at y <= DirectMessage.created_at x.

(** What is left of a conversation when its unread count is put aside. *)
Definition forget_unread (c : Conversation.t) : Conversation.t :=
  Conversation.set_unread_count 0 c.

Definition skeleton (cm : ConversationMap) : list (string * Conversation.t) :=
  (fun kc => (kc.1, forget_unread kc.2)) <$> cm.

Definition bump (userId : string) (msg : DirectMessage.t) (c : Conversation.t)
    : Conversation.t :=
  if counts_unread userId msg then incr_unread c else c.

Definition add_unread (n : nat) (c : Conversation.t) : Conversation.t :=
  Conversation.set_unread_count (Conversation.unread_count c + n) c.

(** The messages of [msgs] that the loop counts for counterpart [k]. *)
Definition unread_in (userId k : string) (msgs : list DirectMessage.t) : nat :=
  List.length
    (filter (fun m => bool_decide (otherDoctorId userId m = k) && counts_unread userId m)
            msgs).

(** The first message of [msgs] exchanged with counterpart [k]. *)
Definition first_with (userId k : string) (msgs : list DirectMessage.t)
    : option DirectMessage.t :=
  head (filter (fun m => bool_decide (otherDoctorId userId m = k)) msgs).

(** The loop seen through [skeleton]: keys and entries in order, unread
    counts put aside. *)
Definition skeleton_step (profileMap : gmap string ProfileEntry) (userId : string)
    (sk : list (string * Conversation.t)) (msg : DirectMessage.t)
    : list (string * Conversation.t) :=
  if bool_decide (otherDoctorId userId msg ∈ sk.*1) then sk
  else sk ++ [(otherDoctorId userId msg, new_conversation profileMap userId msg)].

Definition newer_or_same (a b : Conversation.t) : Prop :=
  Conversation.last_message_time b <= Conversation.last_message_time a.

(** The counterparts of [msgs] in order of first appearance. *)
Definition first_appearance (userId : string) (msgs : list DirectMessage.t) : list string :=
  foldl (fun ids m => set_add (otherDoctorId userId m) ids) [] msgs.

(** The unread count of the data model: the messages of the store that
    [counterpart] sent to [userId] and that are not read. *)
Definition unread_from (userId counterpart : string) (m : DirectMessage.t) : bool :=
  bool_decide (DirectMessage.recipient_id m = userId)
  && bool_decide (DirectMessage.sender_id m = counterpart)
  && negb (DirectMessage.is_read m).

Definition unreadCount (userId counterpart : string) (db : Db) : nat :=
  List.length (filter (fun m => unread_from userId counterpart m) (direct_messages db)).

(** The order the specification asks of the conversation list: newer last
    message first, and for equal times the smaller counterpart id first. *)
Definition spec_order (a b : Conversation.t) : Prop :=
  Conversation.last_message_time b < Conversation.last_message_time a
  ∨ (Conversation.last_message_time a = Conversation.last_message_time b
     ∧ String.leb (Conversation.doctor_id a) (Conversation.doctor_id b) = true).

Fixpoint all_white_space (s : string) : bool :=
  match s with
  | EmptyString => true
  | String c s' => is_white_space c && all_white_space s'
  end.

(** One row before and after a write: untouched, or turned from unread to
    read with every other column as it was. *)
Definition read_only_forward (m m' : DirectMessage.t) : Prop :=
  m' = m ∨ (DirectMessage.is_read m = false ∧ m' = DirectMessage.set_is_read true m).

(** A read row stays exactly as it is. *)
Definition read_once (m m' : DirectMessage.t) : Prop :=
  read_only_forward m m' ∧ (DirectMessage.is_read m = true -> m' = m).

(** The rows of [db'] are, in some order, the rows of [db], each untouched or
    turned from unread to read, and the rows added since. *)
Definition store_forward (db db' : Db) : Prop :=
  ∃ f more,
    (∀ m, read_only_forward m (f m))
    ∧ direct_messages db' ≡ₚ (f <$> direct_messages db) ++ more.

(** What the update that marks messages read makes of one row. *)
Definition mark_read (auth : Auth) (ids : list string) (m : DirectMessage.t)
    : DirectMessage.t :=
  if marks_read auth ids m then DirectMessage.set_is_read true m else m.

(** What a request to mark the rows with an id in [ids] may do to row [m],
    which [m'] is afterwards. *)
Definition marked_by (auth : Auth) (ids : list string) (m m' : DirectMessage.t) : Prop :=
  (DirectMessage.is_read m = true -> m' = m)
  ∧ (auth ≠ Some (DirectMessage.recipient_id m) -> m' = m)
  ∧ (DirectMessage.id m ∉ ids -> m' = m)
  ∧ (DirectMessage.id m ∈ ids -> auth = Some (DirectMessage.recipient_id m) ->
     m' = DirectMessage.set_is_read true m).



(** [newest] is a message of the thread between [userId] and [doctorId] in
    [db] that no message of the thread is newer than. *)
Definition newest_in_thread (userId doctorId : string) (db : Db) (newest : DirectMessage.t)
    : Prop :=
  newest ∈ direct_messages db
  ∧ in_thread userId doctorId newest
  ∧ ∀ m, m ∈ direct_messages db -> in_thread userId doctorId m ->
         DirectMessage.created_at m <= DirectMessage.created_at newest.

(** [m] is [row] with a sender name filled in. *)
Definition with_sender_name (row m : DirectMessage.t) : Prop :=
  ∃ name, name ≠ "" ∧ m = DirectMessage.set_sender_name (Some name) row.

(** The rows a request of [userId] for the announced message [newMsg]
    writes. *)
Definition announced_to (userId : string) (newMsg m : DirectMessage.t) : bool :=
  bool_decide (DirectMessage.id m = DirectMessage.id newMsg)
  && bool_decide (DirectMessage.recipient_id m = userId).

(** ** Vocabulary of the further properties *)



Definition first_char (s : string) : option ascii :=
  match s with
  | EmptyString => None
  | String c _ => Some c
  end.

Fixpoint last_char (s : string) : option ascii :=
  match s with
  | EmptyString => None
  | String c EmptyString => Some c
  | String _ s' => last_char s'
  end.

(** [s] neither starts nor ends with white space. *)
Definition no_outer_white_space (s : string) : Prop :=
  (∀ c, first_char s = Some c -> is_white_space c = false)
  ∧ (∀ c, last_char s = Some c -> is_white_space c = false).

(** Older rows first, as the thread is shown. *)
Definition older_first (x y : DirectMessage.t) : Prop :=
  DirectMessage.created_at x <= DirectMessage.created_at y.

(** [m] is [row] with both names filled in. *)
Definition named_copy (row m : DirectMessage.t) : Prop :=
  ∃ sender recipient,
    sender ≠ "" ∧ recipient ≠ ""
    ∧ m = DirectMessage.set_recipient_name (Some recipient)
            (DirectMessage.set_sender_name (Some sender) row).

(** What opening the conversation with [doctorId] does to one row of the
    store. *)
Definition read_if_unread_from (userId doctorId : string) (m : DirectMessage.t)
    : DirectMessage.t :=
  if unread_from userId doctorId m then DirectMessage.set_is_read true m else m.

(** The primary key column of [direct_messages]. *)
Definition message_ids (db : Db) : list string :=
  DirectMessage.id <$> direct_messages db.

(** One write either keeps the ids of the key column or adds one id that
    was not there, and leaves the other tables alone. *)
Definition key_step (db db' : Db) : Prop :=
  (message_ids db' ≡ₚ message_ids db
   ∨ ∃ uuid, (uuid ∉ message_ids db) ∧ message_ids db' = message_ids db ++ [uuid])
  ∧ auth_users db' = auth_users db
  ∧ profiles db' = profiles db
  ∧ hospitals db' = hospitals db.

(** ** Scenarios *)

Definition msg_from_b : DirectMessage.t :=
  DirectMessage.mk "m1" "b" "u" "from b" false 5 None None.

Definition msg_from_a : DirectMessage.t :=
  DirectMessage.mk "m2" "a" "u" "from a" false 5 None None.

Definition msg_to_a : DirectMessage.t :=
  DirectMessage.mk "m3" "u" "a" "to a" false 9 None None.

(** Two counterparts whose latest messages carry the same [created_at]. *)
Definition tie_db : Db :=
  mkDb {["u"; "a"; "b"]} [msg_from_b; msg_from_a] [] [].

Definition thread_db : Db :=
  mkDb {["u"; "a"; "b"]} [msg_from_b; msg_from_a; msg_to_a]
       [Profile.mk "a" "Dr A" None (Some "h1")] [Hospital.mk "h1" "General"].

Definition note_to_self : DirectMessage.t :=
  DirectMessage.mk "m4" "u" "u" "note" false 7 None None.

(** The owner has a profile and has written a note to themself. *)
Definition self_db : Db :=
  mkDb {["u"; "a"]} [msg_from_a; note_to_self]
       [Profile.mk "u" "Dr U" (Some "Cardiology") None;
        Profile.mk "a" "Dr A" None (Some "h1")]
       [Hospital.mk "h1" "General"].

(** * Properties *)

(** ** Fallbacks *)

Lemma or_default_nonempty a d : d ≠ "" -> or_default a d ≠ "".
Proof.
  intros Hd. unfold or_default, truthy. destruct a as [s|]; [|done].
  case_bool_decide as Hs; simpl; done.
Qed.

Lemma or_null_nonempty a : or_null a ≠ Some "".
Proof.
  unfold or_null, truthy. destruct a as [s|]; [|done].
  case_bool_decide as Hs; simpl; congruence.
Qed.

(** ** ORDER BY *)

Section order_by.
Context (le : DirectMessage.t -> DirectMessage.t -> bool).

Lemma insert_by_Permutation x l : insert_by le x l ≡ₚ x :: l.
Proof.
  induction l as [|y l IH]; simpl; [done|].
  destruct (le x y); [done|].
  rewrite IH. apply Permutation_swap.
Qed.

Lemma sort_by_Permutation l : sort_by le l ≡ₚ l.
Proof.
  induction l as [|x l IH]; simpl; [done|].
  rewrite insert_by_Permutation. by f_equiv.
Qed.

Hypothesis le_total : ∀ x y, le x y = false -> le y x = true.
Hypothesis le_trans : ∀ x y z, le x y = true -> le y z = true -> le x z = true.

Lemma insert_by_StronglySorted x l :
  StronglySorted (fun a b => le a b = true) l ->
  StronglySorted (fun a b => le a b = true) (insert_by le x l).
Proof.
  induction 1 as [|y l Hs IH Hall]; simpl.
  - repeat constructor.
  - destruct (le x y) eqn:Hxy.
    + constructor; [by constructor|].
      constructor; [done|].
      eapply Forall_impl; [exact Hall|]. intros z Hz. by eapply le_trans.
    + constructor; [done|].
      rewrite insert_by_Permutation. constructor; [by apply le_total | done].
Qed.

Lemma sort_by_StronglySorted l :
  StronglySorted (fun a b => le a b = true) (sort_by le l).
Proof.
  induction l as [|x l IH]; simpl; [constructor|].
  by apply insert_by_StronglySorted.
Qed.
End order_by.

Lemma StronglySorted_weaken {A} (R S : A -> A -> Prop) (l : list A) :
  (∀ x y, R x y -> S x y) -> StronglySorted R l -> StronglySorted S l.
Proof.
  intros HRS. induction 1 as [|x l Hs IH Hall]; constructor; [done|].
  eapply Forall_impl; [exact Hall|]. auto.
Qed.

Lemma order_desc_StronglySorted l :
  StronglySorted newer_first (order_created_at false l).
Proof.
  unfold order_created_at.
  apply (StronglySorted_weaken (fun a b => created_desc a b = true)).
  - intros x y H. unfold created_desc in H. unfold newer_first. lia.
  - apply sort_by_StronglySorted.
    + intros x y H. unfold created_desc in *. lia.
    + intros x y z H1 H2. unfold created_desc in *. lia.
Qed.

Lemma can_view_involves userId m :
  can_view (Some userId) m && involves userId m = involves userId m.
Proof.
  unfold can_view, involves.
  repeat case_bool_decide; simplify_eq; try done; naive_solver.
Qed.

Lemma select_involving_Permutation userId db :
  select_involving (Some userId) userId db
  ≡ₚ filter (fun m => involves userId m) (direct_messages db).
Proof.
  unfold select_involving, order_created_at. rewrite sort_by_Permutation.
  induction (direct_messages db) as [|m l IH]; [done|].
  rewrite !filter_cons, can_view_involves.
  repeat case_decide; try done; by rewrite ?IH.
Qed.


Lemma select_involving_StronglySorted auth userId db :
  StronglySorted newer_first (select_involving auth userId db).
Proof. apply order_desc_StronglySorted. Qed.

(** ** The Map of conversations *)

Lemma set_add_elem_of x y s : x ∈ set_add y s <-> x = y ∨ x ∈ s.
Proof.
  unfold set_add. case_bool_decide as Hy.
  - split; [by right | intros [-> | ?]; done].
  - rewrite elem_of_app, list_elem_of_singleton. tauto.
Qed.

Lemma cm_get_set k k' c cm :
  cm_get k' (cm_set k c cm) = if bool_decide (k = k') then Some c else cm_get k' cm.
Proof.
  induction cm as [|[k0 c0] cm IH]; simpl; [done|].
  destruct (decide (k0 = k)) as [->|Hne].
  - rewrite bool_decide_eq_true_2 by done. simpl. by case_bool_decide.
  - rewrite (bool_decide_eq_false_2 (k0 = k)) by done. simpl. rewrite IH.
    repeat case_bool_decide; by simplify_eq.
Qed.

Lemma cm_get_update f k k' cm :
  cm_get k' (cm_update f k cm)
  = if bool_decide (k = k') then f <$> cm_get k' cm else cm_get k' cm.
Proof.
  induction cm as [|[k0 c0] cm IH]; simpl; [by case_bool_decide|].
  destruct (decide (k0 = k)) as [->|Hne].
  - rewrite bool_decide_eq_true_2 by done. simpl. by case_bool_decide.
  - rewrite (bool_decide_eq_false_2 (k0 = k)) by done. simpl. rewrite IH.
    repeat case_bool_decide; by simplify_eq.
Qed.

Lemma cm_get_None k cm : cm_get k cm = None <-> k ∉ cm.*1.
Proof.
  induction cm as [|[k0 c0] cm IH]; csimpl.
  - split; [intros _; apply not_elem_of_nil | done].
  - rewrite not_elem_of_cons. destruct (decide (k0 = k)) as [->|Hne].
    + rewrite bool_decide_eq_true_2 by done. split; [done | by intros [? _]].
    + rewrite bool_decide_eq_false_2 by done. rewrite IH.
      split; [by split | by intros [_ ?]].
Qed.

Lemma cm_get_Some_elem_of k c cm : cm_get k cm = Some c -> (k, c) ∈ cm.
Proof.
  induction cm as [|[k0 c0] cm IH]; simpl; [done|].
  destruct (decide (k0 = k)) as [->|Hne].
  - rewrite bool_decide_eq_true_2 by done. intros [= ->]. apply list_elem_of_here.
  - rewrite bool_decide_eq_false_2 by done. intros Hget.
    apply list_elem_of_further. auto.
Qed.

Lemma cm_elem_of_get k c cm : NoDup cm.*1 -> (k, c) ∈ cm -> cm_get k cm = Some c.
Proof.
  induction cm as [|[k0 c0] cm IH]; csimpl; intros Hnd Hin.
  - by apply elem_of_nil in Hin.
  - apply NoDup_cons in Hnd as [Hk0 Hnd].
    apply elem_of_cons in Hin as [[= -> ->] | Hin].
    + by rewrite bool_decide_eq_true_2.
    + destruct (decide (k0 = k)) as [->|Hne].
      * exfalso. apply Hk0. apply list_elem_of_fmap. by exists (k, c).
      * rewrite bool_decide_eq_false_2 by done. by apply IH.
Qed.

Lemma cm_set_fresh k c cm : cm_get k cm = None -> cm_set k c cm = cm ++ [(k, c)].
Proof.
  induction cm as [|[k0 c0] cm IH]; simpl; [done|].
  case_bool_decide; [done|]. intros Hget. by rewrite IH.
Qed.

Lemma skeleton_update_incr k cm : skeleton (cm_update incr_unread k cm) = skeleton cm.
Proof.
  unfold skeleton.
  induction cm as [|[k0 c0] cm IH]; csimpl; [done|].
  case_bool_decide; csimpl; [done|]. by rewrite IH.
Qed.

Lemma skeleton_keys cm : (skeleton cm).*1 = cm.*1.
Proof. unfold skeleton. rewrite <- list_fmap_compose. by apply list_fmap_ext. Qed.

Lemma skeleton_values cm : (skeleton cm).*2 = forget_unread <$> cm_values cm.
Proof.
  unfold skeleton, cm_values. rewrite <- !list_fmap_compose. by apply list_fmap_ext.
Qed.

Lemma cm_has_keys k cm : cm_has k cm = bool_decide (k ∈ cm.*1).
Proof.
  unfold cm_has. destruct (cm_get k cm) eqn:E.
  - symmetry. apply bool_decide_eq_true_2.
    apply cm_get_Some_elem_of in E. apply list_elem_of_fmap. by exists (k, t).
  - symmetry. apply bool_decide_eq_false_2. by apply cm_get_None.
Qed.

(** ** One step of the aggregation loop, and the whole loop *)

Section aggregation.
Context (profileMap : gmap string ProfileEntry) (userId : string).

Abbreviation step := (conversation_step profileMap userId).
Abbreviation fresh := (new_conversation profileMap userId).
Abbreviation other := (otherDoctorId userId).

Lemma conversation_step_get cm msg k :
  cm_get k (step cm msg)
  = if bool_decide (other msg = k)
    then Some (bump userId msg (default (fresh msg) (cm_get k cm)))
    else cm_get k cm.
Proof.
  unfold conversation_step, bump, cm_has.
  destruct (cm_get (other msg) cm) as [c|] eqn:Hget;
    destruct (counts_unread userId msg);
    rewrite ?cm_get_update, ?cm_get_set; case_bool_decide; simplify_eq;
    by rewrite ?Hget.
Qed.

Lemma conversation_step_skeleton cm msg :
  skeleton (step cm msg)
  = if bool_decide (other msg ∈ (skeleton cm).*1) then skeleton cm
    else skeleton cm ++ [(other msg, fresh msg)].
Proof.
  rewrite skeleton_keys, <- cm_has_keys.
  unfold conversation_step.
  assert (skeleton (if cm_has (other msg) cm then cm
                    else cm_set (other msg) (fresh msg) cm)
          = if cm_has (other msg) cm then skeleton cm
            else skeleton cm ++ [(other msg, fresh msg)]) as Hsk.
  { unfold cm_has. destruct (cm_get (other msg) cm) eqn:E; [done|].
    rewrite cm_set_fresh by done. unfold skeleton. by rewrite fmap_app. }
  destruct (counts_unread userId msg); [|done].
  by rewrite skeleton_update_incr.
Qed.
Lemma add_unread_0 c : add_unread 0 c = c.
Proof.
  destruct c. unfold add_unread, Conversation.set_unread_count. simpl. f_equal. lia.
Qed.

Lemma add_unread_bump n msg c :
  add_unread n (bump userId msg c)
  = add_unread ((if counts_unread userId msg then 1 else 0) + n) c.
Proof.
  unfold bump. destruct (counts_unread userId msg); [|done].
  destruct c. unfold add_unread, incr_unread, Conversation.set_unread_count.
  simpl. f_equal. lia.
Qed.

Lemma unread_in_cons k msg msgs :
  unread_in userId k (msg :: msgs)
  = ((if bool_decide (other msg = k) && counts_unread userId msg then 1 else 0)
     + unread_in userId k msgs)%nat.
Proof.
  unfold unread_in. rewrite filter_cons.
  destruct (bool_decide (other msg = k) && counts_unread userId msg); done.
Qed.

Lemma first_with_cons k msg msgs :
  first_with userId k (msg :: msgs)
  = if bool_decide (other msg = k) then Some msg else first_with userId k msgs.
Proof.
  unfold first_with. rewrite filter_cons.
  destruct (bool_decide (other msg = k)); done.
Qed.

(** What the loop leaves under key [k]: the entry that was there, or the one
    made from the first message exchanged with [k], with one more unread for
    every message the loop counts for [k]. *)
Lemma loop_get msgs : ∀ cm k,
  cm_get k (foldl step cm msgs)
  = match cm_get k cm with
    | Some c => Some (add_unread (unread_in userId k msgs) c)
    | None =>
        (fun m0 => add_unread (unread_in userId k msgs) (fresh m0))
          <$> first_with userId k msgs
    end.
Proof.
  induction msgs as [|msg msgs IH]; intros cm k; simpl.
  - destruct (cm_get k cm); [by rewrite add_unread_0 | done].
  - rewrite IH, conversation_step_get, unread_in_cons, first_with_cons.
    destruct (bool_decide (other msg = k)) eqn:Hk; simpl.
    + rewrite add_unread_bump. by destruct (cm_get k cm).
    + done.
Qed.

Lemma loop_skeleton msgs : ∀ cm,
  skeleton (foldl step cm msgs) = foldl (skeleton_step profileMap userId) (skeleton cm) msgs.
Proof.
  induction msgs as [|msg msgs IH]; intros cm; simpl; [done|].
  by rewrite IH, conversation_step_skeleton.
Qed.

Lemma skeleton_loop_NoDup msgs : ∀ sk,
  NoDup sk.*1 -> NoDup (foldl (skeleton_step profileMap userId) sk msgs).*1.
Proof.
  induction msgs as [|msg msgs IH]; intros sk Hnd; simpl; [done|].
  apply IH. unfold skeleton_step. case_bool_decide as Hin; [done|].
  rewrite fmap_app. apply NoDup_app. split_and!; [done| |apply NoDup_singleton].
  intros x Hx ->%list_elem_of_singleton. done.
Qed.

Lemma skeleton_loop_sorted msgs : ∀ sk,
  StronglySorted newer_first msgs ->
  StronglySorted newer_or_same sk.*2 ->
  (∀ c m, c ∈ sk.*2 -> m ∈ msgs ->
          DirectMessage.created_at m <= Conversation.last_message_time c) ->
  StronglySorted newer_or_same (foldl (skeleton_step profileMap userId) sk msgs).*2.
Proof.
  induction msgs as [|msg msgs IH]; intros sk Hmsgs Hsk Hbound; simpl; [done|].
  apply StronglySorted_cons in Hmsgs as [Hhd Hmsgs].
  rewrite Forall_forall in Hhd.
  apply IH; [done| |]; unfold skeleton_step; case_bool_decide as Hin.
  - done.
  - rewrite fmap_app. apply StronglySorted_app_2; [|done|repeat constructor].
    intros c1 c2 Hc1 ->%list_elem_of_singleton. unfold newer_or_same. simpl.
    apply Hbound; [done | apply list_elem_of_here].
  - intros c m Hc Hm. apply Hbound; [done | by apply list_elem_of_further].
  - intros c m Hc Hm. rewrite fmap_app in Hc.
    apply elem_of_app in Hc as [Hc | ->%list_elem_of_singleton].
    + apply Hbound; [done | by apply list_elem_of_further].
    + simpl. by apply Hhd.
Qed.
End aggregation.

(** ** The full rescan *)

Lemma rescan_eq userId db :
  let allMessages := select_involving (Some userId) userId db in
  rescan userId db
  = build_conversations
      (build_profileMap (collect_doctorIds userId allMessages) db) userId allMessages.
Proof. unfold rescan. simpl. by destruct (select_involving _ _ _). Qed.

Lemma StronglySorted_fmap_inv {A B} (f : A -> B) (R1 : relation A) (R2 : relation B) l :
  (∀ x y, R2 (f x) (f y) -> R1 x y) ->
  StronglySorted R2 (f <$> l) -> StronglySorted R1 l.
Proof.
  intros HR. induction l as [|x l IH]; csimpl; [constructor|].
  intros [Hall Hs]%StronglySorted_cons. constructor; [by apply IH|].
  rewrite Forall_fmap in Hall. eapply Forall_impl; [exact Hall|].
  intros y Hy. by apply HR.
Qed.

Lemma build_conversations_NoDup profileMap userId msgs :
  NoDup (foldl (conversation_step profileMap userId) [] msgs).*1.
Proof.
  rewrite <- skeleton_keys, loop_skeleton.
  apply skeleton_loop_NoDup. constructor.
Qed.

Lemma build_conversations_sorted profileMap userId msgs :
  StronglySorted newer_first msgs ->
  StronglySorted newer_or_same (build_conversations profileMap userId msgs).
Proof.
  intros Hmsgs. unfold build_conversations.
  apply (StronglySorted_fmap_inv forget_unread _ newer_or_same); [done|].
  rewrite <- skeleton_values, loop_skeleton.
  apply skeleton_loop_sorted; [done|constructor|].
  intros c m Hc. by apply elem_of_nil in Hc.
Qed.

(** Every entry of the list is the one made from the first message the store
    returned for its counterpart, with the unread count of the loop. *)
Lemma build_conversations_entry profileMap userId msgs c :
  c ∈ build_conversations profileMap userId msgs ->
  ∃ m0, first_with userId (Conversation.doctor_id c) msgs = Some m0
        ∧ c = add_unread (unread_in userId (Conversation.doctor_id c) msgs)
                (new_conversation profileMap userId m0).
Proof.
  unfold build_conversations, cm_values.
  intros ([k c'] & -> & Hin)%list_elem_of_fmap. simpl.
  apply cm_elem_of_get in Hin; [|apply build_conversations_NoDup].
  rewrite loop_get in Hin. simpl in Hin.
  destruct (first_with userId k msgs) as [m0|] eqn:Hfirst; [|done].
  simpl in Hin. injection Hin as <-.
  assert (otherDoctorId userId m0 = k) as Hk.
  { unfold first_with in Hfirst. apply head_Some_elem_of in Hfirst.
    apply list_elem_of_filter in Hfirst as [Hk _]. by apply bool_decide_unpack in Hk. }
  simpl. rewrite Hk. eauto.
Qed.

(** Every counterpart the store returned a message for has its entry. *)
Lemma build_conversations_covers profileMap userId msgs m :
  m ∈ msgs ->
  ∃ c, c ∈ build_conversations profileMap userId msgs
       ∧ Conversation.doctor_id c = otherDoctorId userId m.
Proof.
  intros Hm.
  pose proof (loop_get profileMap userId msgs [] (otherDoctorId userId m)) as Hget.
  simpl in Hget.
  destruct (first_with userId (otherDoctorId userId m) msgs) as [m0|] eqn:Hfirst.
  - simpl in Hget. apply cm_get_Some_elem_of in Hget.
    eexists. split.
    + unfold build_conversations, cm_values. apply list_elem_of_fmap.
      eexists. split; [|exact Hget]. done.
    + simpl. unfold first_with in Hfirst. apply head_Some_elem_of in Hfirst.
      apply list_elem_of_filter in Hfirst as [Hk _]. by apply bool_decide_unpack in Hk.
  - exfalso. unfold first_with in Hfirst. apply head_None in Hfirst.
    assert (m ∈ filter (fun m' => bool_decide (otherDoctorId userId m'
                                               = otherDoctorId userId m)) msgs) as Hin.
    { apply list_elem_of_filter. split; [by apply bool_decide_pack | done]. }
    rewrite Hfirst in Hin. by apply elem_of_nil in Hin.
Qed.

Lemma build_conversations_one_per_counterpart profileMap userId msgs :
  NoDup (Conversation.doctor_id <$> build_conversations profileMap userId msgs).
Proof.
  assert (Conversation.doctor_id <$> build_conversations profileMap userId msgs
          = (foldl (conversation_step profileMap userId) [] msgs).*1) as ->;
    [|apply build_conversations_NoDup].
  unfold build_conversations, cm_values. rewrite <- list_fmap_compose.
  apply list_fmap_ext. intros i [k c] Hin%list_elem_of_lookup_2. simpl.
  apply cm_elem_of_get in Hin; [|apply build_conversations_NoDup].
  rewrite loop_get in Hin. simpl in Hin.
  destruct (first_with userId k msgs) as [m0|] eqn:Hfirst; [|done].
  simpl in Hin. injection Hin as <-. simpl.
  unfold first_with in Hfirst. apply head_Some_elem_of in Hfirst.
  apply list_elem_of_filter in Hfirst as [Hk _]. by apply bool_decide_unpack in Hk.
Qed.

Lemma fetchConversations_conversations userId db st :
  conversations (fetchConversations (Some userId) db st) = rescan userId db.
Proof. done. Qed.

Lemma skeleton_loop_keys profileMap userId msgs : ∀ sk,
  (foldl (skeleton_step profileMap userId) sk msgs).*1
  = foldl (fun ids m => set_add (otherDoctorId userId m) ids) sk.*1 msgs.
Proof.
  induction msgs as [|msg msgs IH]; intros sk; simpl; [done|].
  rewrite IH. f_equal. unfold skeleton_step, set_add.
  case_bool_decide; [done|]. by rewrite fmap_app.
Qed.

Lemma build_conversations_order profileMap userId msgs :
  Conversation.doctor_id <$> build_conversations profileMap userId msgs
  = first_appearance userId msgs.
Proof.
  unfold first_appearance.
  pose proof (skeleton_loop_keys profileMap userId msgs []) as Hkeys.
  change ([].*1) with (@nil string) in Hkeys.
  change [] with (skeleton []) in Hkeys at 1.
  rewrite <- Hkeys, <- loop_skeleton, skeleton_keys.
  unfold build_conversations, cm_values. rewrite <- list_fmap_compose.
  apply list_fmap_ext. intros i [k c] Hin%list_elem_of_lookup_2. simpl.
  apply cm_elem_of_get in Hin; [|apply build_conversations_NoDup].
  rewrite loop_get in Hin. simpl in Hin.
  destruct (first_with userId k msgs) as [m0|] eqn:Hfirst; [|done].
  simpl in Hin. injection Hin as <-. simpl.
  unfold first_with in Hfirst. apply head_Some_elem_of in Hfirst.
  apply list_elem_of_filter in Hfirst as [Hk _]. by apply bool_decide_unpack in Hk.
Qed.

Lemma counted_iff_unread_from userId k m :
  bool_decide (otherDoctorId userId m = k) && counts_unread userId m ∧ involves userId m
  <-> unread_from userId k m.
Proof.
  unfold counts_unread, involves, unread_from.
  rewrite !andb_True, orb_True, !bool_decide_spec.
  unfold otherDoctorId. case_bool_decide; intuition congruence.
Qed.

Lemma unread_in_select_involving userId k db :
  unread_in userId k (select_involving (Some userId) userId db) = unreadCount userId k db.
Proof.
  unfold unread_in, unreadCount.
  rewrite select_involving_Permutation, list_filter_filter.
  f_equal. apply list_filter_iff. intros m. apply counted_iff_unread_from.
Qed.

(** Among rows listed newer first, the first row that satisfies [P] is a
    newest one that does. *)
Lemma head_filter_newest (P : DirectMessage.t -> Prop) `{!∀ m, Decision (P m)} msgs m0 m :
  StronglySorted newer_first msgs ->
  head (filter P msgs) = Some m0 ->
  m ∈ msgs -> P m ->
  DirectMessage.created_at m <= DirectMessage.created_at m0.
Proof.
  intros Hsorted (l1 & l2 & -> & Hl1)%head_filter_Some Hm HP.
  apply elem_of_app in Hm as [Hm | Hm].
  - rewrite Forall_forall in Hl1. by destruct (Hl1 m Hm).
  - apply StronglySorted_app_1_r, StronglySorted_cons in Hsorted as [Hall _].
    apply elem_of_cons in Hm as [-> | Hm]; [lia|].
    rewrite Forall_forall in Hall. by apply Hall.
Qed.

(** ** The conversation list *)

(** C2, as the code has it: the list [fetchConversations] stores is ordered by
    [last_message_time], newest first, and its counterparts stand in the order
    in which the store's answer first mentions them; nothing orders two
    entries of equal time by counterpart id. *)
Theorem fetchConversations_newest_first userId db st :
  let convs := conversations (fetchConversations (Some userId) db st) in
  StronglySorted newer_or_same convs
  ∧ Conversation.doctor_id <$> convs
    = first_appearance userId (select_involving (Some userId) userId db).
Proof.
  simpl. rewrite rescan_eq. simpl. split.
  - apply build_conversations_sorted, select_involving_StronglySorted.
  - apply build_conversations_order.
Qed.

(** C2 as stated fails: "b" and "a" each sent one message to "u" at the same
    [created_at], the store lists the message of "b" first, and the list
    follows the store: "b" stands before "a". *)
Lemma fetchConversations_tie_not_by_counterpart :
  ¬ StronglySorted spec_order
      (conversations (fetchConversations (Some "u") tie_db initial_state)).
Proof.
  intros Hs. apply StronglySorted_cons in Hs as [Hall _].
  apply Forall_cons in Hall as [[Hlt | [_ Hle]] _].
  - simpl in Hlt. lia.
  - vm_compute in Hle. discriminate.
Qed.

Lemma rescan_unread_count userId db c :
  c ∈ rescan userId db ->
  Conversation.unread_count c = unreadCount userId (Conversation.doctor_id c) db.
Proof.
  rewrite rescan_eq. simpl.
  intros (m0 & _ & Hc)%build_conversations_entry.
  rewrite <- unread_in_select_involving.
  rewrite Hc at 1. done.
Qed.

(** X1: the list holds one entry for each counterpart. *)
Theorem fetchConversations_one_per_counterpart userId db st :
  NoDup (Conversation.doctor_id <$> conversations (fetchConversations (Some userId) db st)).
Proof.
  simpl. rewrite rescan_eq. simpl. apply build_conversations_one_per_counterpart.
Qed.

(** ** Threads and entries *)

(** The messages the loop files under counterpart [k] are the messages of
    the thread between the owner and [k]. *)
Lemma in_thread_iff userId k m :
  in_thread userId k m <-> involves userId m ∧ otherDoctorId userId m = k.
Proof.
  unfold in_thread, involves, otherDoctorId.
  rewrite !orb_True, !andb_True, !bool_decide_spec.
  case_bool_decide; intuition congruence.
Qed.

Lemma select_involving_in_thread userId k db m :
  m ∈ select_involving (Some userId) userId db ∧ otherDoctorId userId m = k
  <-> m ∈ direct_messages db ∧ in_thread userId k m.
Proof.
  rewrite select_involving_Permutation, list_elem_of_filter, in_thread_iff. tauto.
Qed.

Lemma rescan_NoDup userId db : NoDup (Conversation.doctor_id <$> rescan userId db).
Proof. rewrite rescan_eq. cbv zeta. apply build_conversations_one_per_counterpart. Qed.

Lemma rescan_one_per_counterpart userId db c c' :
  c ∈ rescan userId db -> c' ∈ rescan userId db ->
  Conversation.doctor_id c' = Conversation.doctor_id c -> c' = c.
Proof.
  intros [i Hi]%list_elem_of_lookup_1 [j Hj]%list_elem_of_lookup_1 Hid.
  assert (j = i) as ->; [|congruence].
  eapply (NoDup_lookup _ j i (Conversation.doctor_id c)); [apply (rescan_NoDup userId db)| |].
  - rewrite list_lookup_fmap, Hj. simpl. by rewrite Hid.
  - by rewrite list_lookup_fmap, Hi.
Qed.

(** Every thread with a message in the store has its entry. *)
Lemma rescan_covers userId k db m :
  m ∈ direct_messages db -> in_thread userId k m ->
  ∃ c, c ∈ rescan userId db ∧ Conversation.doctor_id c = k.
Proof.
  intros Hm Hthread.
  destruct (proj2 (select_involving_in_thread userId k db m) (conj Hm Hthread)) as [Hsel Hk].
  rewrite rescan_eq. cbv zeta. rewrite <- Hk.
  by apply build_conversations_covers.
Qed.

(** Every entry is made from a newest message of its thread, and counts the
    unread messages of the store. *)
Lemma rescan_entry userId db c :
  c ∈ rescan userId db ->
  ∃ m0, newest_in_thread userId (Conversation.doctor_id c) db m0
        ∧ c = add_unread (unreadCount userId (Conversation.doctor_id c) db)
                (new_conversation
                   (build_profileMap
                      (collect_doctorIds userId (select_involving (Some userId) userId db))
                      db)
                   userId m0).
Proof.
  rewrite rescan_eq. cbv zeta. intros Hc.
  destruct (build_conversations_entry _ _ _ _ Hc) as (m0 & Hfirst & Heq).
  exists m0. rewrite <- unread_in_select_involving. split; [|exact Heq].
  assert (m0 ∈ select_involving (Some userId) userId db
          ∧ otherDoctorId userId m0 = Conversation.doctor_id c) as Hm0.
  { unfold first_with in Hfirst. apply head_Some_elem_of in Hfirst.
    apply list_elem_of_filter in Hfirst as [Hk ?]. by apply bool_decide_unpack in Hk. }
  apply select_involving_in_thread in Hm0 as [Hm0 Hthread].
  split_and!; [done|done|].
  intros m Hm Hthread'.
  destruct (proj2 (select_involving_in_thread userId _ db m) (conj Hm Hthread')) as [Hsel Hk].
  eapply (head_filter_newest _ (select_involving (Some userId) userId db));
    [apply select_involving_StronglySorted | exact Hfirst | exact Hsel |].
  by apply bool_decide_pack.
Qed.

(** C4: every thread of the owner that holds a message has exactly one entry
    in the list, under the id of the counterpart, and the entry carries the
    body and the time of a message of that thread that no message of the
    thread is newer than. *)
Theorem fetchConversations_last_message userId doctorId db st m :
  m ∈ direct_messages db -> in_thread userId doctorId m ->
  let convs := conversations (fetchConversations (Some userId) db st) in
  ∃ c, c ∈ convs
    ∧ Conversation.doctor_id c = doctorId
    ∧ (∀ c', c' ∈ convs -> Conversation.doctor_id c' = doctorId -> c' = c)
    ∧ ∃ newest, newest ∈ direct_messages db
        ∧ in_thread userId doctorId newest
        ∧ (∀ m', m' ∈ direct_messages db -> in_thread userId doctorId m' ->
                 DirectMessage.created_at m' <= DirectMessage.created_at newest)
        ∧ Conversation.last_message c = DirectMessage.message newest
        ∧ Conversation.last_message_time c = DirectMessage.created_at newest.
Proof.
  intros Hm Hthread. cbv zeta. rewrite fetchConversations_conversations.
  destruct (rescan_covers userId doctorId db m Hm Hthread) as (c & Hc & Hid).
  exists c. split_and!; [done|done| |].
  - intros c' Hc' Hid'. apply (rescan_one_per_counterpart userId db); [done|done|congruence].
  - destruct (rescan_entry userId db c Hc) as (newest & (Hin & Hnt & Hmax) & Heq).
    rewrite Hid in Hnt. rewrite Hid in Hmax.
    exists newest. split_and!; [done|done|done| |]; by rewrite Heq.
Qed.

Lemma fetchConversations_last_message_witness :
  msg_from_a ∈ direct_messages thread_db
  ∧ in_thread "u" "a" msg_from_a
  ∧ ∃ c, c ∈ conversations (fetchConversations (Some "u") thread_db initial_state)
      ∧ Conversation.doctor_id c = "a"
      ∧ Conversation.last_message c = "to a"
      ∧ Conversation.last_message_time c = 9.
Proof.
  assert (msg_from_a ∈ direct_messages thread_db) as Hin.
  { apply list_elem_of_further, list_elem_of_here. }
  assert (in_thread "u" "a" msg_from_a) as Hthread by exact I.
  split; [exact Hin|]. split; [exact Hthread|].
  destruct (fetchConversations_last_message "u" "a" thread_db initial_state msg_from_a
              Hin Hthread)
    as (c & Hc & Hid & _ & newest & Hnewest & Hnt & Hmax & Hbody & Htime).
  exists c. split; [exact Hc|]. split; [exact Hid|].
  assert (newest = msg_to_a) as ->.
  { simpl in Hnewest.
    apply elem_of_cons in Hnewest as [-> | Hnewest]; [by destruct Hnt|].
    apply elem_of_cons in Hnewest as [-> | Hnewest].
    - exfalso.
      assert (DirectMessage.created_at msg_to_a <= DirectMessage.created_at msg_from_a)
        as Hle.
      { apply Hmax; [|exact I]. do 2 apply list_elem_of_further. apply list_elem_of_here. }
      simpl in Hle. lia.
    - apply elem_of_cons in Hnewest as [-> | Hnewest]; [done|].
      by apply elem_of_nil in Hnewest. }
  split; [exact Hbody | exact Htime].
Defined.

(** ** sendMessage *)

Lemma trimStart_empty s : trimStart s = "" <-> all_white_space s.
Proof.
  induction s as [|c s IH]; simpl; [done|].
  destruct (is_white_space c); simpl; [done|]. split; [discriminate | done].
Qed.

Lemma trimEnd_empty s : trimEnd s = "" <-> all_white_space s.
Proof.
  induction s as [|c s IH]; simpl; [done|].
  destruct (trimEnd s) eqn:Hs.
  - destruct (is_white_space c); simpl; [tauto|]. split; [discriminate | done].
  - rewrite andb_True, <- IH. split; [discriminate | by intros [_ ?]].
Qed.

Lemma trimStart_all_white_space s : all_white_space (trimStart s) -> all_white_space s.
Proof.
  induction s as [|c s IH]; simpl; [done|].
  destruct (is_white_space c) eqn:Hc; simpl; [done|]. by rewrite Hc.
Qed.

(** A body is empty after [trim] exactly when it holds nothing but white space. *)
Lemma trim_empty s : trim s = "" <-> all_white_space s.
Proof.
  unfold trim. rewrite trimEnd_empty. split.
  - apply trimStart_all_white_space.
  - intros Hs. apply trimStart_empty in Hs. by rewrite Hs.
Qed.

Lemma is_white_space_not_nul c :
  is_white_space c = true -> (N_of_ascii c =? 0)%N = false.
Proof. unfold is_white_space. by destruct (N_of_ascii c). Qed.

Lemma has_nul_trimStart s : has_nul (trimStart s) = has_nul s.
Proof.
  induction s as [|c s IH]; simpl; [done|].
  destruct (is_white_space c) eqn:Hc; simpl; [|done].
  by rewrite IH, (is_white_space_not_nul c Hc).
Qed.

Lemma has_nul_trimEnd s : has_nul (trimEnd s) = has_nul s.
Proof.
  induction s as [|c s IH]; simpl; [done|].
  destruct (trimEnd s) as [|b t] eqn:Ht.
  - rewrite <- IH. simpl.
    destruct (is_white_space c) eqn:Hc; simpl; [|done].
    by rewrite (is_white_space_not_nul c Hc).
  - by rewrite <- IH.
Qed.

(** Trimming neither removes nor adds a code unit 0. *)
Lemma has_nul_trim s : has_nul (trim s) = has_nul s.
Proof. unfold trim. by rewrite has_nul_trimEnd, has_nul_trimStart. Qed.

(** C5: a body that is empty after trimming makes [sendMessage] return
    [false] at line 161: the store is as it was, no row is created, and the
    component state is untouched. *)
Theorem sendMessage_blank_body auth uuid now recipientId messageText db st :
  trim messageText = "" ->
  sendMessage auth uuid now recipientId messageText db st = (false, st, db).
Proof. intros Hblank. unfold sendMessage. by rewrite Hblank. Qed.

Lemma sendMessage_blank_body_witness :
  let body := String "009" (String "010" "  ") in
  trim body = ""
  ∧ sendMessage (Some "u") "m9" 10 "a" body thread_db initial_state
    = (false, initial_state, thread_db).
Proof.
  assert (trim (String "009" (String "010" "  ")) = "") as Hblank by reflexivity.
  split; [exact Hblank|].
  exact (sendMessage_blank_body (Some "u") "m9" 10 "a" _ thread_db initial_state Hblank).
Defined.

(** C6, as the code has it: a message a user addresses to themself is sent
    like any other.  With a body that is not blank and that a [text] column
    can hold, a session user known to the store and a fresh id,
    [sendMessage] returns [true] and the store gains the row whose sender and
    recipient are both that user. *)
Theorem sendMessage_to_self userId uuid now messageText db st :
  trim messageText ≠ "" ->
  has_nul messageText = false ->
  userId ∈ auth_users db ->
  uuid ∉ (DirectMessage.id <$> direct_messages db) ->
  sendMessage (Some userId) uuid now userId messageText db st
  = (true, setSending false (setSending true st),
     with_direct_messages
       (direct_messages db
        ++ [DirectMessage.mk uuid userId userId (trim messageText) false now None None])
       db).
Proof.
  intros Hbody Hnul Huser Hfresh. unfold sendMessage, truthy.
  rewrite (bool_decide_eq_false_2 _ Hbody). simpl.
  unfold insert_direct_message, can_send. rewrite has_nul_trim, Hnul. simpl.
  rewrite (bool_decide_eq_true_2 (Some userId = Some userId)) by done.
  rewrite (bool_decide_eq_true_2 _ Huser), (bool_decide_eq_false_2 _ Hfresh). done.
Qed.

Lemma sendMessage_to_self_witness :
  trim "note" ≠ ""
  ∧ has_nul "note" = false
  ∧ "u" ∈ auth_users tie_db
  ∧ ("m9" ∉ DirectMessage.id <$> direct_messages tie_db)
  ∧ sendMessage (Some "u") "m9" 10 "u" "note" tie_db initial_state
    = (true, setSending false (setSending true initial_state),
       with_direct_messages
         (direct_messages tie_db
          ++ [DirectMessage.mk "m9" "u" "u" (trim "note") false 10 None None])
         tie_db).
Proof.
  assert (trim "note" ≠ "") as Hbody by discriminate.
  assert (has_nul "note" = false) as Hnul by reflexivity.
  assert ("u" ∈ auth_users tie_db) as Huser.
  { apply (bool_decide_unpack _). by vm_compute. }
  assert ("m9" ∉ (DirectMessage.id <$> direct_messages tie_db)) as Hfresh.
  { apply (bool_decide_unpack _). by vm_compute. }
  split_and!; [exact Hbody | exact Hnul | exact Huser | exact Hfresh |].
  exact (sendMessage_to_self "u" "m9" 10 "note" tie_db initial_state
           Hbody Hnul Huser Hfresh).
Defined.

(** C6 as stated fails: user "u" sends "note" to "u"; the call returns [true]
    and the store holds one row more. *)
Lemma sendMessage_to_self_not_rejected :
  let result := sendMessage (Some "u") "m9" 10 "u" "note" tie_db initial_state in
  ¬ (result.1.1 = false ∧ direct_messages result.2 = direct_messages tie_db).
Proof. intros result [Hok _]. vm_compute in Hok. discriminate. Qed.

(** ** Marking messages read *)

Lemma set_is_read_true_id m :
  DirectMessage.is_read m = true -> DirectMessage.set_is_read true m = m.
Proof. destruct m. simpl. by intros ->. Qed.

Lemma update_is_read_in_rows auth ids db :
  direct_messages (update_is_read_in auth ids db).2
  = filter (fun m => negb (marks_read auth ids m)) (direct_messages db)
    ++ (DirectMessage.set_is_read true
          <$> filter (fun m => marks_read auth ids m) (direct_messages db)).
Proof. done. Qed.

Lemma filter_none {A} (P : A -> Prop) `{!∀ x, Decision (P x)} (l : list A) :
  (∀ x, x ∈ l -> ¬ P x) -> filter P l = [].
Proof.
  induction l as [|x l IH]; intros Hl; [done|].
  rewrite filter_cons_False by (apply Hl, list_elem_of_here).
  apply IH. intros y Hy. by apply Hl, list_elem_of_further.
Qed.

Lemma filter_all {A} (P : A -> Prop) `{!∀ x, Decision (P x)} (l : list A) :
  (∀ x, x ∈ l -> P x) -> filter P l = l.
Proof.
  induction l as [|x l IH]; intros Hl; [done|].
  rewrite filter_cons_True by (apply Hl, list_elem_of_here).
  f_equal. apply IH. intros y Hy. by apply Hl, list_elem_of_further.
Qed.

Lemma filter_fmap {A B} (f : A -> B) (P : B -> Prop) `{!∀ y, Decision (P y)} (l : list A) :
  filter P (f <$> l) = f <$> filter (fun x => P (f x)) l.
Proof.
  induction l as [|x l IH]; csimpl; [done|].
  rewrite !filter_cons. case_decide; csimpl; by rewrite IH.
Qed.

(** Rows written anew at the end of a table are, up to the order of the
    table, rows rewritten where they stand. *)
Lemma moved_Permutation {A} (p : A -> bool) (g : A -> A) (l : list A) :
  filter (fun x => negb (p x)) l ++ (g <$> filter (fun x => p x) l)
  ≡ₚ (fun x => if p x then g x else x) <$> l.
Proof.
  induction l as [|x l IH]; csimpl; [done|].
  rewrite !filter_cons. destruct (p x) eqn:Hx; csimpl.
  - by rewrite <- Permutation_middle, IH.
  - by rewrite IH.
Qed.

(** The rows a second pass of the same rewrite finds to move are the rows
    the first pass moved. *)
Lemma moved_twice {A} (p : A -> bool) (g : A -> A) (l : list A) :
  (∀ x, p (g x) = p x) ->
  let l' := filter (fun x => negb (p x)) l ++ (g <$> filter (fun x => p x) l) in
  filter (fun x => negb (p x)) l' = filter (fun x => negb (p x)) l
  ∧ filter (fun x => p x) l' = g <$> filter (fun x => p x) l.
Proof.
  intros Hg l'. unfold l'. rewrite !filter_app. split.
  - rewrite (filter_all (fun x => negb (p x)) (filter _ l))
      by (by intros x [? _]%list_elem_of_filter).
    rewrite (filter_none (fun x => negb (p x)) (g <$> _)); [by rewrite app_nil_r|].
    intros y (x & -> & [Hx _]%list_elem_of_filter)%list_elem_of_fmap.
    rewrite Hg. destruct (p x); simpl; tauto.
  - rewrite (filter_none (fun x => p x) (filter _ l)).
    + simpl. apply filter_all.
      intros y (x & -> & [Hx _]%list_elem_of_filter)%list_elem_of_fmap. by rewrite Hg.
    + intros x [Hx _]%list_elem_of_filter. destruct (p x); simpl in *; tauto.
Qed.

Lemma update_is_read_in_Permutation auth ids db :
  direct_messages (update_is_read_in auth ids db).2
  ≡ₚ mark_read auth ids <$> direct_messages db.
Proof. rewrite update_is_read_in_rows. apply moved_Permutation. Qed.

Lemma update_is_read_in_idempotent auth ids db :
  (update_is_read_in auth ids (update_is_read_in auth ids db).2).2
  = (update_is_read_in auth ids db).2.
Proof.
  unfold update_is_read_in, with_direct_messages. cbn [snd direct_messages]. f_equal.
  destruct (moved_twice (marks_read auth ids) (DirectMessage.set_is_read true)
              (direct_messages db)) as [Hkept Hmoved]; [done|].
  cbv zeta in Hkept, Hmoved. rewrite Hkept, Hmoved. f_equal.
  rewrite <- list_fmap_compose. by apply list_fmap_ext.
Qed.

(** A request that addresses no row it may write leaves the store as it is. *)
Lemma update_is_read_in_none auth ids db :
  (∀ m, m ∈ direct_messages db -> ¬ marks_read auth ids m) ->
  (update_is_read_in auth ids db).2 = db.
Proof.
  intros Hnone. unfold update_is_read_in, with_direct_messages. cbn [snd].
  rewrite (filter_none (fun m => marks_read auth ids m)) by done.
  rewrite filter_all; [destruct db; simpl; by rewrite app_nil_r|].
  intros m Hm. specialize (Hnone m Hm). by destruct (marks_read auth ids m).
Qed.

Lemma marks_read_spec auth ids m :
  marks_read auth ids m
  <-> DirectMessage.id m ∈ ids ∧ auth = Some (DirectMessage.recipient_id m).
Proof. unfold marks_read, can_mark_read. by rewrite andb_True, !bool_decide_spec. Qed.

Lemma mark_read_marked_by auth ids m : marked_by auth ids m (mark_read auth ids m).
Proof.
  unfold marked_by, mark_read.
  destruct (marks_read auth ids m) eqn:Hmarks.
  - apply Is_true_eq_left, marks_read_spec in Hmarks as [Hid Hrec].
    split_and!; [apply set_is_read_true_id|done|done|done].
  - assert (¬ (DirectMessage.id m ∈ ids ∧ auth = Some (DirectMessage.recipient_id m)))
      as Hnot.
    { rewrite <- marks_read_spec, Hmarks. by intros []. }
    split_and!; [done|done|done|]. intros ? ?. by destruct Hnot.
Qed.

(** C7, as the code has it: the update that marks messages read can be
    repeated without further effect, leaves a row that is already read as it
    is, and passes over a row whose recipient is not the requesting user,
    which stays as it was; the statement reports no error in any case, also
    when there is no row it may write, and then the store is untouched.  The
    rows it passes over keep their order in the table. *)
Theorem update_is_read_in_idempotent_and_silent auth ids db :
  let after := update_is_read_in auth ids db in
  after.1 = None
  ∧ (update_is_read_in auth ids after.2).2 = after.2
  ∧ (∃ rows, direct_messages after.2 ≡ₚ rows
             ∧ Forall2 (marked_by auth ids) (direct_messages db) rows)
  ∧ filter (fun m => ¬ (DirectMessage.id m ∈ ids
                        ∧ auth = Some (DirectMessage.recipient_id m)))
           (direct_messages after.2)
    = filter (fun m => ¬ (DirectMessage.id m ∈ ids
                          ∧ auth = Some (DirectMessage.recipient_id m)))
             (direct_messages db)
  ∧ ((∀ m, m ∈ direct_messages db -> DirectMessage.id m ∈ ids ->
           auth ≠ Some (DirectMessage.recipient_id m)) ->
     after.2 = db).
Proof.
  intros after. unfold after.
  split_and!; [done | apply update_is_read_in_idempotent | | |].
  - exists (mark_read auth ids <$> direct_messages db).
    split; [apply update_is_read_in_Permutation|].
    apply Forall2_fmap_r, Forall_Forall2_diag, Forall_forall.
    intros m _. apply mark_read_marked_by.
  - destruct (moved_twice (marks_read auth ids) (DirectMessage.set_is_read true)
                (direct_messages db)) as [Hkept _]; [done|].
    cbv zeta in Hkept. rewrite <- update_is_read_in_rows in Hkept.
    erewrite (list_filter_iff _ (fun m => negb (marks_read auth ids m)));
      [|intros m; rewrite <- marks_read_spec; symmetry; apply negb_True].
    rewrite Hkept.
    apply list_filter_iff. intros m. rewrite <- marks_read_spec. apply negb_True.
  - intros Hothers. apply update_is_read_in_none.
    intros m Hm [Hid Hrec]%marks_read_spec. by apply (Hothers m).
Qed.

Lemma update_is_read_in_idempotent_and_silent_witness :
  (update_is_read_in (Some "c") ["m2"] thread_db).1 = None
  ∧ (update_is_read_in (Some "c") ["m2"] thread_db).2 = thread_db
  ∧ direct_messages (update_is_read_in (Some "u") ["m2"] thread_db).2
    ≡ₚ [msg_from_b; DirectMessage.set_is_read true msg_from_a; msg_to_a].
Proof.
  destruct (update_is_read_in_idempotent_and_silent (Some "c") ["m2"] thread_db)
    as (Hsilent & _ & _ & _ & Hpassed).
  destruct (update_is_read_in_idempotent_and_silent (Some "u") ["m2"] thread_db)
    as (_ & _ & (rows & Hrows & Hmarked) & _).
  split; [exact Hsilent|]. split.
  - apply Hpassed. intros m Hm Hid. simpl in Hm.
    repeat (apply elem_of_cons in Hm as [-> | Hm]; [discriminate|]).
    by apply elem_of_nil in Hm.
  - rewrite Hrows. simpl in Hmarked.
    apply Forall2_cons_inv_l in Hmarked as (r1 & rows1 & (_ & _ & H1 & _) & Hmarked & ->).
    apply Forall2_cons_inv_l in Hmarked as (r2 & rows2 & (_ & _ & _ & H2) & Hmarked & ->).
    apply Forall2_cons_inv_l in Hmarked as (r3 & rows3 & (_ & _ & H3 & _) & Hmarked & ->).
    apply Forall2_nil_inv_l in Hmarked as ->.
    rewrite H1, H2, H3; [done| |apply list_elem_of_here|done|].
    + by intros ?%list_elem_of_singleton.
    + by intros ?%list_elem_of_singleton.
Defined.

(** C7 as stated fails: user "c" asks to mark the message "m1", sent by "b"
    to "u"; the statement is not rejected, it reports no error at all (and
    changes nothing). *)
Lemma update_is_read_in_no_authorization_error :
  ¬ (msg_from_b ∈ direct_messages tie_db ->
     DirectMessage.id msg_from_b ∈ ["m1"] ->
     Some "c" ≠ Some (DirectMessage.recipient_id msg_from_b) ->
     ∃ e, (update_is_read_in (Some "c") ["m1"] tie_db).1 = Some e).
Proof.
  intros Hclaim.
  destruct Hclaim as [e Herr];
    [apply list_elem_of_here | apply list_elem_of_here | discriminate |].
  discriminate Herr.
Qed.

(** ** Read flags only move forward *)

Lemma read_only_forward_trans m1 m2 m3 :
  read_only_forward m1 m2 -> read_only_forward m2 m3 -> read_only_forward m1 m3.
Proof.
  intros [-> | [Hr1 ->]] [-> | [Hr2 ->]]; unfold read_only_forward; auto;
    simpl in *; discriminate.
Qed.

Lemma read_only_forward_mark_read auth ids m : read_only_forward m (mark_read auth ids m).
Proof.
  unfold read_only_forward, mark_read.
  destruct (marks_read auth ids m); [|by left].
  destruct (DirectMessage.is_read m) eqn:Hr; [|by right].
  left. by apply set_is_read_true_id.
Qed.


Lemma read_only_forward_read_once m m' : read_only_forward m m' -> read_once m m'.
Proof.
  intros Hf. split; [done|]. intros Hr. destruct Hf as [-> | [Hr' _]]; [done | congruence].
Qed.

Lemma store_forward_refl db : store_forward db db.
Proof.
  exists id, []. split; [by left|]. by rewrite list_fmap_id, app_nil_r.
Qed.

Lemma store_forward_trans db1 db2 db3 :
  store_forward db1 db2 -> store_forward db2 db3 -> store_forward db1 db3.
Proof.
  intros (f1 & more1 & Hf1 & H12) (f2 & more2 & Hf2 & H23).
  exists (f2 ∘ f1), ((f2 <$> more1) ++ more2). split.
  - intros m. by eapply read_only_forward_trans.
  - by rewrite H23, H12, fmap_app, list_fmap_compose, <- app_assoc.
Qed.

Lemma store_forward_update auth ids db :
  store_forward db (update_is_read_in auth ids db).2.
Proof.
  exists (mark_read auth ids), []. split; [apply read_only_forward_mark_read|].
  by rewrite app_nil_r, update_is_read_in_Permutation.
Qed.

Lemma store_forward_insert auth uuid now sender recipient body db db' :
  insert_direct_message auth uuid now sender recipient body db = inr db' ->
  store_forward db db'.
Proof.
  unfold insert_direct_message. repeat case_match; try discriminate.
  intros [= <-]. eexists id, _. split; [by left|].
  simpl. by rewrite list_fmap_id.
Qed.

Lemma store_step_forward db db' : store_step db db' -> store_forward db db'.
Proof.
  destruct 1 as [auth uuid now recipientId messageText db st
                |auth doctorId db st
                |userId selectedDoctorId newMsg db st].
  - unfold sendMessage. destruct (negb _); [apply store_forward_refl|].
    destruct auth as [userId|]; [|apply store_forward_refl].
    destruct (insert_direct_message _ _ _ _ _ _ _) as [e|db'] eqn:Hins; simpl.
    + apply store_forward_refl.
    + by eapply store_forward_insert.
  - unfold fetchMessages. destruct auth as [userId|]; [|apply store_forward_refl].
    destruct (0 <? _)%nat; simpl; [apply store_forward_update | apply store_forward_refl].
  - unfold on_insert. destruct (_ && _); [apply store_forward_refl|].
    destruct (viewing _ _); simpl; [|apply store_forward_refl].
    destruct (bool_decide _); [apply store_forward_update | apply store_forward_refl].
Qed.

Lemma store_steps_forward db db' : rtc store_step db db' -> store_forward db db'.
Proof.
  induction 1 as [db | db1 db2 db3 Hstep _ IH].
  - apply store_forward_refl.
  - eapply store_forward_trans; [by apply store_step_forward | done].
Qed.

(** C8: along any sequence of operations of the system the store keeps every
    message, either untouched or turned from unread to read, beside the
    messages added since; a message that is read stays exactly as it is, so
    [is_read] goes from false to true at most once and never back. *)
Theorem is_read_monotone db db' :
  rtc store_step db db' ->
  ∃ kept more,
    direct_messages db' ≡ₚ kept ++ more
    ∧ Forall2 read_once (direct_messages db) kept.
Proof.
  intros Hsteps.
  destruct (store_steps_forward db db' Hsteps) as (f & more & Hf & Hrows).
  exists (f <$> direct_messages db), more. split; [done|].
  apply Forall2_fmap_r, Forall_Forall2_diag, Forall_forall.
  intros m _. by apply read_only_forward_read_once.
Qed.

Lemma is_read_monotone_witness :
  let sent := (sendMessage (Some "b") "m9" 10 "u" "hello" thread_db initial_state).2 in
  let db' := (fetchMessages (Some "u") "a" sent initial_state).2 in
  rtc store_step thread_db db'
  ∧ direct_messages db'
    = [msg_from_b; msg_to_a;
       DirectMessage.mk "m9" "b" "u" "hello" false 10 None None;
       DirectMessage.set_is_read true msg_from_a]
  ∧ ∃ kept more,
      direct_messages db' ≡ₚ kept ++ more
      ∧ Forall2 read_once (direct_messages thread_db) kept.
Proof.
  intros sent db'.
  assert (rtc store_step thread_db db') as Hsteps.
  { eapply rtc_l; [apply step_sendMessage|]. apply rtc_once, step_fetchMessages. }
  split; [exact Hsteps|]. split; [reflexivity|].
  exact (is_read_monotone thread_db db' Hsteps).
Defined.

(** ** Opening a conversation *)

Lemma can_view_in_thread userId doctorId m :
  can_view (Some userId) m && in_thread userId doctorId m = in_thread userId doctorId m.
Proof.
  unfold can_view, in_thread.
  destruct (decide (DirectMessage.sender_id m = userId)) as [Hs|Hs];
    destruct (decide (DirectMessage.recipient_id m = userId)) as [Hr|Hr];
    repeat (first [rewrite (bool_decide_eq_true_2 (Some userId = Some _)) by congruence
                  |rewrite (bool_decide_eq_false_2 (Some userId = Some _)) by congruence
                  |rewrite (bool_decide_eq_true_2 (_ = userId)) by congruence
                  |rewrite (bool_decide_eq_false_2 (_ = userId)) by congruence]);
    simpl; try done.
  by rewrite andb_false_r.
Qed.

Lemma select_thread_Permutation userId doctorId db :
  select_thread (Some userId) userId doctorId db
  ≡ₚ filter (fun m => in_thread userId doctorId m) (direct_messages db).
Proof.
  unfold select_thread, order_created_at. rewrite sort_by_Permutation.
  induction (direct_messages db) as [|m l IH]; [done|].
  rewrite !filter_cons, can_view_in_thread.
  repeat case_decide; try done; by rewrite ?IH.
Qed.

Lemma unread_in_thread_iff userId doctorId m :
  counts_unread userId m ∧ in_thread userId doctorId m <-> unread_from userId doctorId m.
Proof.
  unfold counts_unread, in_thread, unread_from.
  rewrite !andb_True, orb_True, !andb_True, !bool_decide_spec.
  intuition congruence.
Qed.

Lemma unread_of_thread userId doctorId db :
  filter (counts_unread userId) (select_thread (Some userId) userId doctorId db)
  ≡ₚ filter (fun m => unread_from userId doctorId m) (direct_messages db).
Proof.
  rewrite select_thread_Permutation, list_filter_filter.
  erewrite list_filter_iff; [done|]. intros m. apply unread_in_thread_iff.
Qed.

Lemma unreadIds_of_length userId doctorId db :
  List.length (unreadIds_of userId (select_thread (Some userId) userId doctorId db))
  = unreadCount userId doctorId db.
Proof.
  unfold unreadIds_of, unreadCount. by rewrite length_fmap, unread_of_thread.
Qed.

Lemma unreadIds_of_elem_of userId doctorId db m :
  m ∈ direct_messages db -> unread_from userId doctorId m ->
  DirectMessage.id m ∈ unreadIds_of userId (select_thread (Some userId) userId doctorId db).
Proof.
  intros Hm Hunread. unfold unreadIds_of. apply list_elem_of_fmap_2.
  rewrite unread_of_thread. by apply list_elem_of_filter.
Qed.

Lemma unreadCount_after_update userId doctorId db :
  unreadCount userId doctorId
    (update_is_read_in (Some userId)
       (unreadIds_of userId (select_thread (Some userId) userId doctorId db)) db).2
  = 0%nat.
Proof.
  unfold unreadCount. rewrite update_is_read_in_Permutation.
  rewrite filter_none; [done|].
  intros m' (m & -> & Hm)%list_elem_of_fmap. unfold mark_read.
  destruct (marks_read _ _ m) eqn:Hmarks.
  - unfold unread_from. simpl. rewrite andb_false_r. by intros [].
  - intros Hunread. unfold marks_read, can_mark_read in Hmarks.
    rewrite (bool_decide_eq_true_2 _ (unreadIds_of_elem_of _ _ _ _ Hm Hunread)) in Hmarks.
    unfold unread_from in Hunread.
    apply andb_True in Hunread as [[Hrec _]%andb_True _].
    apply bool_decide_unpack in Hrec.
    rewrite bool_decide_eq_true_2 in Hmarks by congruence. done.
Qed.

Lemma fetchMessages_store_unread_zero userId doctorId db st :
  unreadCount userId doctorId (fetchMessages (Some userId) doctorId db st).2 = 0%nat.
Proof.
  unfold fetchMessages.
  destruct (0 <? _)%nat eqn:Hlen; simpl.
  - apply unreadCount_after_update.
  - rewrite unreadIds_of_length in Hlen. apply Nat.ltb_ge in Hlen. lia.
Qed.

Lemma fetchMessages_store_noop userId doctorId db st :
  unreadCount userId doctorId db = 0%nat ->
  (fetchMessages (Some userId) doctorId db st).2 = db.
Proof.
  intros Hzero. unfold fetchMessages. by rewrite unreadIds_of_length, Hzero.
Qed.

Lemma fetchMessages_conversations auth doctorId db st :
  conversations (fetchMessages auth doctorId db st).1 = conversations st.
Proof.
  unfold fetchMessages. destruct auth; [|done]. by destruct (0 <? _)%nat.
Qed.

(** C9, as the code has it: opening the conversation with [doctorId] leaves
    no unread message from [doctorId] to the owner in the store, so a rescan
    gives that conversation the unread count 0; when there was none the store
    is not written; and opening again right after changes nothing in the
    store and the count stays 0.  The list the hook keeps is not part of
    this: neither the open nor the second open touches it. *)
Theorem fetchMessages_unread_to_zero userId doctorId db st :
  let opened := fetchMessages (Some userId) doctorId db st in
  let reopened := fetchMessages (Some userId) doctorId opened.2 opened.1 in
  unreadCount userId doctorId opened.2 = 0%nat
  ∧ (∀ c, c ∈ rescan userId opened.2 -> Conversation.doctor_id c = doctorId ->
          Conversation.unread_count c = 0%nat)
  ∧ (unreadCount userId doctorId db = 0%nat -> opened.2 = db)
  ∧ reopened.2 = opened.2
  ∧ unreadCount userId doctorId reopened.2 = 0%nat
  ∧ conversations opened.1 = conversations st
  ∧ conversations reopened.1 = conversations st.
Proof.
  intros opened reopened.
  assert (unreadCount userId doctorId opened.2 = 0%nat) as Hzero
    by apply fetchMessages_store_unread_zero.
  split_and!.
  - done.
  - intros c Hc Hid. apply rescan_unread_count in Hc. by rewrite Hc, Hid.
  - apply fetchMessages_store_noop.
  - by apply fetchMessages_store_noop.
  - apply fetchMessages_store_unread_zero.
  - apply fetchMessages_conversations.
  - unfold reopened, opened. by rewrite !fetchMessages_conversations.
Qed.

Lemma fetchMessages_unread_to_zero_witness :
  let st := fetchConversations (Some "u") thread_db initial_state in
  let opened := fetchMessages (Some "u") "a" thread_db st in
  let reopened := fetchMessages (Some "u") "a" opened.2 opened.1 in
  unreadCount "u" "a" thread_db = 1%nat
  ∧ unreadCount "u" "a" opened.2 = 0%nat
  ∧ reopened.2 = opened.2
  ∧ conversations opened.1 = conversations st.
Proof.
  intros st opened reopened.
  destruct (fetchMessages_unread_to_zero "u" "a" thread_db st)
    as (Hzero & _ & _ & Hagain & _ & Hkept & _).
  split_and!; [reflexivity | exact Hzero | exact Hagain | exact Hkept].
Defined.

(** C9 as stated fails for the count the hook shows: "u" has the list
    fetched on mount and opens the conversation with "a"; the entry of "a"
    still shows one unread message. *)
Lemma fetchMessages_keeps_shown_unread_count :
  let st := fetchConversations (Some "u") thread_db initial_state in
  let opened := fetchMessages (Some "u") "a" thread_db st in
  ¬ (∀ c, c ∈ conversations opened.1 -> Conversation.doctor_id c = "a" ->
          Conversation.unread_count c = 0%nat).
Proof.
  intros st opened Hclaim.
  specialize (Hclaim (Conversation.mk "a" "Dr A" (Some "General") None "to a" 9 1)).
  discriminate Hclaim; [apply list_elem_of_here | reflexivity].
Qed.

(** ** The subscription callback *)

Lemma enrich_with_sender_name db newMsg : with_sender_name newMsg (enrich db newMsg).
Proof.
  unfold with_sender_name, enrich. eexists. split; [|reflexivity].
  by apply or_default_nonempty.
Qed.

Lemma marks_read_announced userId newMsg m :
  marks_read (Some userId) [DirectMessage.id newMsg] m = announced_to userId newMsg m.
Proof.
  unfold marks_read, can_mark_read, announced_to. f_equal; apply bool_decide_ext.
  - apply list_elem_of_singleton.
  - split; [by intros [= ->] | by intros ->].
Qed.

Lemma update_is_read_eq_rows userId newMsg db :
  direct_messages (update_is_read_eq (Some userId) (DirectMessage.id newMsg) db).2
  = filter (fun m => negb (announced_to userId newMsg m)) (direct_messages db)
    ++ (DirectMessage.set_is_read true
          <$> filter (fun m => announced_to userId newMsg m) (direct_messages db)).
Proof.
  unfold update_is_read_eq. rewrite update_is_read_in_rows.
  f_equal; [|f_equal]; apply list_filter_iff; intros m; by rewrite marks_read_announced.
Qed.

Lemma on_insert_viewing userId sel newMsg db st :
  truthy sel ->
  DirectMessage.sender_id newMsg = sel ->
  DirectMessage.recipient_id newMsg = userId ->
  on_insert userId (Some sel) newMsg db st
  = let db1 := (update_is_read_eq (Some userId) (DirectMessage.id newMsg) db).2 in
    (fetchConversations (Some userId) db1
       (setMessages (messages st ++ [enrich db newMsg]) st),
     db1).
Proof.
  intros Hsel Hsender Hrecipient. unfold on_insert, viewing.
  rewrite (bool_decide_eq_false_2 (DirectMessage.recipient_id newMsg ≠ userId)) by auto.
  rewrite andb_false_r.
  apply Is_true_eq_true in Hsel. rewrite Hsel.
  rewrite (bool_decide_eq_true_2 _ Hsender), (bool_decide_eq_true_2 _ Hrecipient). done.
Qed.

(** C10: when the callback receives a message sent by the counterpart of the
    selected conversation to the session user, it appends that message, with
    a sender name filled in, to the thread shown; the store writes the rows
    that carry the announced id and are addressed to the user anew, with
    [is_read] set, behind the other rows, which stay as they are; and the
    callback refreshes the conversation list from the store, where the
    unread count of the selected conversation is then the number of the
    counterpart's other unread messages, the new one not among them. *)
Theorem on_insert_marks_open_conversation_read userId sel newMsg db st :
  truthy sel ->
  DirectMessage.sender_id newMsg = sel ->
  DirectMessage.recipient_id newMsg = userId ->
  let after := on_insert userId (Some sel) newMsg db st in
  messages after.1 = messages st ++ [enrich db newMsg]
  ∧ with_sender_name newMsg (enrich db newMsg)
  ∧ (∃ written,
       direct_messages after.2
       = filter (fun m => negb (announced_to userId newMsg m)) (direct_messages db)
         ++ written
       ∧ written ≡ₚ DirectMessage.set_is_read true
                      <$> filter (fun m => announced_to userId newMsg m)
                            (direct_messages db))
  ∧ conversations after.1 = rescan userId after.2
  ∧ (∀ c, c ∈ conversations after.1 -> Conversation.doctor_id c = sel ->
          Conversation.unread_count c
          = List.length
              (filter (fun m => unread_from userId sel m
                                ∧ DirectMessage.id m ≠ DirectMessage.id newMsg)
                      (direct_messages db))).
Proof.
  intros Hsel Hsender Hrecipient after. unfold after.
  rewrite (on_insert_viewing _ _ _ _ _ Hsel Hsender Hrecipient).
  cbv zeta. cbn [fst snd]. rewrite fetchConversations_conversations.
  split_and!; [done | apply enrich_with_sender_name | | done |].
  { eexists. split; [apply update_is_read_eq_rows | done]. }
  intros c Hc Hid. apply rescan_unread_count in Hc. rewrite Hc, Hid.
  unfold unreadCount, update_is_read_eq. rewrite update_is_read_in_Permutation.
  rewrite filter_fmap, length_fmap. f_equal.
  apply list_filter_iff. intros m. unfold mark_read.
  destruct (marks_read (Some userId) [DirectMessage.id newMsg] m) eqn:Hmarks.
  + unfold marks_read in Hmarks. apply andb_prop in Hmarks as [Hin _].
    apply bool_decide_eq_true_1, list_elem_of_singleton in Hin.
    unfold unread_from. simpl. rewrite andb_false_r.
    split; [intros [] | intros [_ Hne]; done].
  + split; [|by intros [? _]]. intros Hunread. split; [done|]. intros Heq.
    unfold marks_read, can_mark_read in Hmarks.
    rewrite bool_decide_eq_true_2 in Hmarks by (rewrite Heq; apply list_elem_of_here).
    unfold unread_from in Hunread.
    apply andb_True in Hunread as [[Hrec _]%andb_True _].
    apply bool_decide_unpack in Hrec.
    rewrite bool_decide_eq_true_2 in Hmarks by congruence. done.
Qed.

Lemma on_insert_marks_open_conversation_read_witness :
  let after := on_insert "u" (Some "a") msg_from_a thread_db initial_state in
  truthy "a"
  ∧ DirectMessage.sender_id msg_from_a = "a"
  ∧ DirectMessage.recipient_id msg_from_a = "u"
  ∧ messages after.1 = [DirectMessage.set_sender_name (Some "Dr A") msg_from_a]
  ∧ direct_messages after.2
    = [msg_from_b; msg_to_a; DirectMessage.set_is_read true msg_from_a]
  ∧ conversations after.1 = rescan "u" after.2.
Proof.
  assert (truthy "a") as Hsel by exact I.
  assert (DirectMessage.sender_id msg_from_a = "a") as Hsender by reflexivity.
  assert (DirectMessage.recipient_id msg_from_a = "u") as Hrecipient by reflexivity.
  destruct (on_insert_marks_open_conversation_read
              "u" "a" msg_from_a thread_db initial_state Hsel Hsender Hrecipient)
    as (Hmessages & _ & (written & Hrows & Hwritten) & Hconvs & _).
  split_and!; [exact Hsel | exact Hsender | exact Hrecipient | | | exact Hconvs].
  - rewrite Hmessages. reflexivity.
  - rewrite Hrows. apply Permutation_singleton_r in Hwritten. rewrite Hwritten. reflexivity.
Defined.

(** ** The store some reads later *)





Lemma in_thread_involves userId k m : in_thread userId k m -> involves userId m.
Proof. by intros [? _]%in_thread_iff. Qed.















(** The counterparts of a rescan are the users the owner shares a message
    with. *)
Lemma rescan_threads userId db k :
  k ∈ Conversation.doctor_id <$> rescan userId db
  <-> ∃ m, m ∈ direct_messages db ∧ in_thread userId k m.
Proof.
  split.
  - intros (c & -> & Hc)%list_elem_of_fmap.
    destruct (rescan_entry userId db c Hc) as (m0 & (Hm0 & Hthread & _) & _). eauto.
  - intros (m & Hm & Hthread).
    destruct (rescan_covers userId k db m Hm Hthread) as (c & Hc & <-).
    by apply list_elem_of_fmap_2.
Qed.


(** A row that does not involve the owner does not show in the owner's
    rescan. *)
Lemma rescan_insert_other userId row db :
  involves userId row = false ->
  rescan userId (with_direct_messages (direct_messages db ++ [row]) db) = rescan userId db.
Proof.
  intros Hrow.
  assert (select_involving (Some userId) userId
            (with_direct_messages (direct_messages db ++ [row]) db)
          = select_involving (Some userId) userId db) as Hsel.
  { unfold select_involving. simpl. rewrite filter_app.
    rewrite (filter_cons_False _ row); [by rewrite filter_nil, app_nil_r|].
    rewrite Hrow, andb_false_r. by intros []. }
  rewrite !rescan_eq. cbv zeta. by rewrite Hsel.
Qed.

(** ** The session and the rescan *)

Lemma sendMessage_cases auth uuid now recipientId messageText db st :
  let result := sendMessage auth uuid now recipientId messageText db st in
  conversations result.1.2 = conversations st
  ∧ ((result.1.1 = false ∧ result.2 = db)
     ∨ (∃ sender, auth = Some sender ∧ result.1.1 = true
          ∧ result.2 = with_direct_messages
                         (direct_messages db
                          ++ [inserted_row sender uuid now recipientId messageText]) db)).
Proof.
  unfold sendMessage. destruct (negb _); [by auto|].
  destruct auth as [sender|]; [|by auto].
  unfold insert_direct_message.
  repeat (case_match; simpl); try discriminate; simplify_eq; auto.
  split; [done|]. right. by exists sender.
Qed.










(** Nor does the kept list keep the order of the rescan: "b" and "a" wrote
    at the same time, the owner opens the conversation with "b", and the
    store, which has written the row of "b" anew, now lists "a" first. *)
Lemma session_order_after_open :
  let world := run "u" [Opened "b"] (mount "u" tie_db, tie_db) in
  Conversation.doctor_id <$> conversations (hook world.1) = ["b"; "a"]
  ∧ Conversation.doctor_id <$> rescan "u" world.2 = ["a"; "b"].
Proof. split; reflexivity. Qed.

(** ** The unread counts the hook shows *)




(** * Further properties *)

(** ** What the conversation list holds *)

(** X2: the list holds an entry for a counterpart exactly when the store holds a
    message of the thread between the user and that counterpart, and it is
    empty exactly when no stored message involves the user. *)
Theorem fetchConversations_counterparts userId db st :
  let convs := conversations (fetchConversations (Some userId) db st) in
  (∀ k, k ∈ Conversation.doctor_id <$> convs
        <-> ∃ m, m ∈ direct_messages db ∧ in_thread userId k m)
  ∧ (convs = [] <-> ∀ m, m ∈ direct_messages db -> ¬ involves userId m).
Proof.
  cbv zeta. rewrite fetchConversations_conversations.
  split; [intros k; apply rescan_threads|]. split.
  - intros Hnil m Hm Hinv.
    assert (otherDoctorId userId m ∈ Conversation.doctor_id <$> rescan userId db) as Hin.
    { apply rescan_threads. exists m. split; [done|]. by apply in_thread_iff. }
    rewrite Hnil in Hin. by apply elem_of_nil in Hin.
  - intros Hnone. destruct (rescan userId db) as [|c convs] eqn:Hconvs; [done|].
    assert (Conversation.doctor_id c ∈ Conversation.doctor_id <$> rescan userId db) as Hin.
    { rewrite Hconvs. apply list_elem_of_here. }
    apply rescan_threads in Hin as (m & Hm & Hthread).
    destruct (Hnone m Hm). by eapply in_thread_involves.
Qed.







(** ** Names in the conversation list *)

(** X4: every entry has a name to show, and no empty hospital name or
    specialty: an empty or missing value is replaced by the fallback. *)
Theorem fetchConversations_names userId db st :
  Forall (fun c => Conversation.doctor_name c ≠ ""
                   ∧ Conversation.hospital_name c ≠ Some ""
                   ∧ Conversation.specialty c ≠ Some "")
         (conversations (fetchConversations (Some userId) db st)).
Proof.
  simpl. rewrite rescan_eq. cbv zeta. apply Forall_forall. intros c Hc.
  apply build_conversations_entry in Hc as (m0 & _ & ->). simpl.
  split_and!; [by apply or_default_nonempty | apply or_null_nonempty | apply or_null_nonempty].
Qed.

Lemma new_Map_lookup_Some {V} (entries : list (string * V)) k v :
  new_Map entries !! k = Some v -> (k, v) ∈ entries.
Proof.
  unfold new_Map.
  assert (∀ m : gmap string V,
            foldl (fun m kv => <[kv.1 := kv.2]> m) m entries !! k = Some v ->
            m !! k = Some v ∨ (k, v) ∈ entries) as Hgen.
  { induction entries as [|[k0 v0] entries IH]; intros m; simpl; [by left|].
    intros [Hm | Hin]%IH.
    - destruct (decide (k0 = k)) as [->|Hne].
      + rewrite lookup_insert_eq in Hm. injection Hm as ->. right. apply list_elem_of_here.
      + rewrite lookup_insert_ne in Hm by done. by left.
    - right. by apply list_elem_of_further. }
  intros Hlookup. destruct (Hgen ∅ Hlookup) as [Hempty | Hin]; [|done].
  by rewrite lookup_empty in Hempty.
Qed.

Lemma build_profileMap_lookup doctorIds db k entry :
  build_profileMap doctorIds db !! k = Some entry -> k ∈ doctorIds.
Proof.
  unfold build_profileMap. intros Hlookup%new_Map_lookup_Some.
  apply list_elem_of_fmap in Hlookup as (p & [= -> _] & Hp).
  apply list_elem_of_filter in Hp as [Hid _]. by apply bool_decide_unpack in Hid.
Qed.

Lemma collect_doctorIds_not_self userId msgs : userId ∉ collect_doctorIds userId msgs.
Proof.
  unfold collect_doctorIds.
  assert (∀ ids, userId ∉ ids ->
            userId ∉ foldl (fun ids msg =>
                              let ids1 :=
                                if bool_decide (DirectMessage.sender_id msg = userId) then ids
                                else set_add (DirectMessage.sender_id msg) ids in
                              if bool_decide (DirectMessage.recipient_id msg = userId) then ids1
                              else set_add (DirectMessage.recipient_id msg) ids1)
                           ids msgs) as Hgen.
  { induction msgs as [|msg msgs IH]; intros ids Hids; simpl; [done|].
    apply IH. repeat case_bool_decide; rewrite ?set_add_elem_of; intuition congruence. }
  apply Hgen, not_elem_of_nil.
Qed.

(** X5: the conversation of a user with themself never shows their profile: the
    profile query leaves the user's own id out, so the entry carries the
    fallback name and neither hospital nor specialty. *)
Theorem fetchConversations_self_conversation userId db st c :
  c ∈ conversations (fetchConversations (Some userId) db st) ->
  Conversation.doctor_id c = userId ->
  Conversation.doctor_name c = "Unknown Doctor"
  ∧ Conversation.hospital_name c = None
  ∧ Conversation.specialty c = None.
Proof.
  simpl. rewrite rescan_eq. cbv zeta. intros Hc Hself.
  apply build_conversations_entry in Hc as (m0 & Hfirst & Heq).
  rewrite Heq in Hself. simpl in Hself. rewrite Heq. simpl. rewrite Hself.
  destruct (build_profileMap _ db !! userId) as [entry|] eqn:Hlookup; [|done].
  apply build_profileMap_lookup in Hlookup. by apply collect_doctorIds_not_self in Hlookup.
Qed.

Lemma fetchConversations_self_conversation_witness :
  let c := Conversation.mk "u" "Unknown Doctor" None None "note" 7 1 in
  c ∈ conversations (fetchConversations (Some "u") self_db initial_state)
  ∧ Conversation.doctor_id c = "u"
  ∧ Conversation.doctor_name c = "Unknown Doctor"
  ∧ Conversation.hospital_name c = None
  ∧ Conversation.specialty c = None.
Proof.
  intros c.
  assert (c ∈ conversations (fetchConversations (Some "u") self_db initial_state)) as Hc.
  { apply list_elem_of_here. }
  assert (Conversation.doctor_id c = "u") as Hself by reflexivity.
  split; [exact Hc|]. split; [exact Hself|].
  exact (fetchConversations_self_conversation "u" self_db initial_state c Hc Hself).
Defined.

(** ** The thread shown by fetchMessages *)

Lemma order_asc_StronglySorted l :
  StronglySorted older_first (order_created_at true l).
Proof.
  unfold order_created_at.
  apply (StronglySorted_weaken (fun a b => created_asc a b = true)).
  - intros x y H. unfold created_asc in H. unfold older_first. lia.
  - apply sort_by_StronglySorted.
    + intros x y H. unfold created_asc in *. lia.
    + intros x y z H1 H2. unfold created_asc in *. lia.
Qed.

Lemma fetchMessages_messages userId doctorId db st :
  messages (fetchMessages (Some userId) doctorId db st).1
  = with_names userId doctorId db (select_thread (Some userId) userId doctorId db).
Proof. unfold fetchMessages. by destruct (0 <? _)%nat. Qed.

(** X6: the thread shown is the thread stored: every stored message between the
    user and [doctorId] is shown once, with both names filled in, no other
    message is shown, and the messages stand oldest first. *)
Theorem fetchMessages_thread userId doctorId db st :
  let shown := messages (fetchMessages (Some userId) doctorId db st).1 in
  (∃ rows, rows ≡ₚ filter (fun m => in_thread userId doctorId m) (direct_messages db)
           ∧ Forall2 named_copy rows shown)
  ∧ StronglySorted older_first shown.
Proof.
  intros shown. unfold shown. rewrite fetchMessages_messages. split.
  - exists (select_thread (Some userId) userId doctorId db).
    split; [apply select_thread_Permutation|].
    unfold with_names. apply Forall2_fmap_r, Forall_Forall2_diag, Forall_forall.
    intros row _. unfold named_copy. do 2 eexists.
    split_and!; [| |reflexivity]; by apply or_default_nonempty.
  - unfold with_names.
    eapply StronglySorted_fmap; [|apply order_asc_StronglySorted].
    intros x y Hxy. exact Hxy.
Qed.

(** ** What fetchMessages writes *)

Lemma NoDup_fmap_inj_on {A B} (f : A -> B) (l : list A) x y :
  NoDup (f <$> l) -> x ∈ l -> y ∈ l -> f x = f y -> x = y.
Proof.
  intros Hnd [i Hi]%list_elem_of_lookup_1 [j Hj]%list_elem_of_lookup_1 Hf.
  assert (i = j) as ->; [|congruence].
  eapply (NoDup_lookup _ i j (f x)); [exact Hnd| |].
  - by rewrite list_lookup_fmap, Hi.
  - rewrite list_lookup_fmap, Hj. simpl. by rewrite Hf.
Qed.

Lemma unreadIds_of_elem_of_inv userId doctorId db k :
  k ∈ unreadIds_of userId (select_thread (Some userId) userId doctorId db) ->
  ∃ m, m ∈ direct_messages db ∧ unread_from userId doctorId m ∧ DirectMessage.id m = k.
Proof.
  unfold unreadIds_of. intros (m & -> & Hm)%list_elem_of_fmap.
  rewrite unread_of_thread in Hm. apply list_elem_of_filter in Hm as [? ?]. eauto.
Qed.

Lemma unread_from_recipient userId doctorId m :
  unread_from userId doctorId m ->
  DirectMessage.recipient_id m = userId ∧ DirectMessage.is_read m = false.
Proof.
  unfold unread_from. rewrite !andb_True, !bool_decide_spec, negb_True.
  intros [[? _] Hr]. split; [done|]. by destruct (DirectMessage.is_read m).
Qed.

Lemma filter_ext_elem_of {A} (P Q : A -> Prop)
    `{!∀ x, Decision (P x)} `{!∀ x, Decision (Q x)} (l : list A) :
  (∀ x, x ∈ l -> (P x <-> Q x)) -> filter P l = filter Q l.
Proof.
  induction l as [|x l IH]; intros Hl; [done|].
  rewrite !filter_cons.
  pose proof (Hl x (list_elem_of_here _ _)) as Hx.
  rewrite IH by (intros y Hy; by apply Hl, list_elem_of_further).
  destruct (decide (P x)) as [HP|HP].
  - by rewrite decide_True by tauto.
  - by rewrite decide_False by tauto.
Qed.

(** With unique ids, the rows the update of [fetchMessages] writes are the
    unread messages from [doctorId] to the user. *)
Lemma marks_read_unread_from userId doctorId db m :
  NoDup (message_ids db) ->
  m ∈ direct_messages db ->
  marks_read (Some userId)
    (unreadIds_of userId (select_thread (Some userId) userId doctorId db)) m
  <-> unread_from userId doctorId m.
Proof.
  intros Hkey Hm. rewrite marks_read_spec. split.
  - intros [Hid _].
    apply unreadIds_of_elem_of_inv in Hid as (m' & Hm' & Hunread' & Hid).
    by assert (m' = m) as -> by (by eapply (NoDup_fmap_inj_on DirectMessage.id)).
  - intros Hunread. split; [by apply unreadIds_of_elem_of|].
    apply unread_from_recipient in Hunread as [Hrec _]. congruence.
Qed.

(** X7: with ids that are unique, as the primary key makes them, opening the
    conversation with [doctorId] marks exactly the unread messages that
    [doctorId] sent to the user, which the store writes anew behind the
    others: every other row of the store keeps its place among the others,
    and every other table is left as it is. *)
Theorem fetchMessages_store_effect userId doctorId db st :
  NoDup (message_ids db) ->
  let db' := (fetchMessages (Some userId) doctorId db st).2 in
  (∃ written,
     direct_messages db'
     = filter (fun m => negb (unread_from userId doctorId m)) (direct_messages db)
       ++ written
     ∧ written ≡ₚ DirectMessage.set_is_read true
                    <$> filter (fun m => unread_from userId doctorId m) (direct_messages db))
  ∧ direct_messages db' ≡ₚ read_if_unread_from userId doctorId <$> direct_messages db
  ∧ auth_users db' = auth_users db
  ∧ profiles db' = profiles db
  ∧ hospitals db' = hospitals db.
Proof.
  intros Hkey db'.
  assert (direct_messages db'
          = filter (fun m => negb (unread_from userId doctorId m)) (direct_messages db)
            ++ (DirectMessage.set_is_read true
                  <$> filter (fun m => unread_from userId doctorId m) (direct_messages db)))
    as Hrows.
  { unfold db', fetchMessages. destruct (0 <? _)%nat eqn:Hlen; cbn [snd].
    - rewrite update_is_read_in_rows. f_equal; [|f_equal]; apply filter_ext_elem_of.
      + intros m Hm. rewrite !negb_True. by rewrite marks_read_unread_from.
      + intros m Hm. by apply marks_read_unread_from.
    - rewrite unreadIds_of_length in Hlen. apply Nat.ltb_ge in Hlen.
      unfold unreadCount in Hlen.
      destruct (filter (fun m => unread_from userId doctorId m) (direct_messages db))
        as [|m0 unread] eqn:Hunread; [|simpl in Hlen; lia].
      rewrite app_nil_r. symmetry. apply filter_all.
      intros m Hm. apply negb_True. intros Hm'.
      assert (m ∈ filter (fun m => unread_from userId doctorId m) (direct_messages db)) as Hin
        by (by apply list_elem_of_filter).
      rewrite Hunread in Hin. by apply elem_of_nil in Hin. }
  split_and!; [by eexists | | | |].
  - rewrite Hrows. apply (moved_Permutation (unread_from userId doctorId)).
  - unfold db', fetchMessages. by destruct (0 <? _)%nat.
  - unfold db', fetchMessages. by destruct (0 <? _)%nat.
  - unfold db', fetchMessages. by destruct (0 <? _)%nat.
Qed.

Lemma fetchMessages_store_effect_witness :
  let db' := (fetchMessages (Some "u") "a" thread_db initial_state).2 in
  NoDup (message_ids thread_db)
  ∧ direct_messages db' = [msg_from_b; msg_to_a; DirectMessage.set_is_read true msg_from_a].
Proof.
  assert (NoDup (message_ids thread_db)) as Hkey.
  { apply (bool_decide_unpack _). by vm_compute. }
  split; [exact Hkey|].
  destruct (fetchMessages_store_effect "u" "a" thread_db initial_state Hkey)
    as [(written & Hrows & Hwritten) _].
  rewrite Hrows. apply Permutation_singleton_r in Hwritten. rewrite Hwritten. reflexivity.
Defined.

(** ** The primary key and the other tables *)

Lemma update_is_read_in_ids auth ids db :
  message_ids (update_is_read_in auth ids db).2 ≡ₚ message_ids db.
Proof.
  unfold message_ids. rewrite update_is_read_in_Permutation, <- list_fmap_compose.
  erewrite list_fmap_ext; [done|]. intros _ m _. simpl. unfold mark_read.
  by destruct (marks_read auth ids m).
Qed.

Lemma key_step_refl db : key_step db db.
Proof. split; [by left | done]. Qed.

Lemma key_step_update auth ids db : key_step db (update_is_read_in auth ids db).2.
Proof. split; [left; apply update_is_read_in_ids | done]. Qed.

Lemma store_step_key_step db db' : store_step db db' -> key_step db db'.
Proof.
  destruct 1 as [auth uuid now recipientId messageText db st
                |auth doctorId db st
                |userId selectedDoctorId newMsg db st].
  - unfold sendMessage. destruct (negb _); [apply key_step_refl|].
    destruct auth as [userId|]; [|apply key_step_refl].
    unfold insert_direct_message.
    destruct (has_nul _); [apply key_step_refl|].
    destruct (negb (can_send _ _)); [apply key_step_refl|].
    destruct (negb _); [apply key_step_refl|].
    case_bool_decide as Hfresh; [apply key_step_refl|].
    split; [|done]. right. exists uuid. split; [done|].
    unfold message_ids. cbn [snd direct_messages with_direct_messages].
    by rewrite fmap_app.
  - unfold fetchMessages. destruct auth as [userId|]; [|apply key_step_refl].
    destruct (0 <? _)%nat; cbn [snd]; [apply key_step_update | apply key_step_refl].
  - unfold on_insert. destruct (_ && _); [apply key_step_refl|].
    destruct (viewing _ _); cbn [snd]; [|apply key_step_refl].
    destruct (bool_decide _); [apply key_step_update | apply key_step_refl].
Qed.

Lemma key_step_NoDup db db' :
  key_step db db' -> NoDup (message_ids db) -> NoDup (message_ids db').
Proof.
  intros [[-> | (uuid & Hfresh & ->)] _] Hkey; [done|].
  apply NoDup_app. split_and!; [done| |apply NoDup_singleton].
  intros x Hx ->%list_elem_of_singleton. done.
Qed.

(** X8: whatever the sessions do, the ids of the stored messages stay unique
    and the users, profiles and hospitals stay as they are. *)
Theorem writes_keep_primary_key db db' :
  rtc store_step db db' ->
  NoDup (message_ids db) ->
  NoDup (message_ids db')
  ∧ auth_users db' = auth_users db
  ∧ profiles db' = profiles db
  ∧ hospitals db' = hospitals db.
Proof.
  induction 1 as [db | db1 db2 db3 Hstep _ IH]; intros Hkey; [done|].
  apply store_step_key_step in Hstep.
  destruct (IH (key_step_NoDup _ _ Hstep Hkey)) as (Hkey3 & Husers & Hprofiles & Hhospitals).
  destruct Hstep as (_ & Husers' & Hprofiles' & Hhospitals').
  split_and!; [done | congruence | congruence | congruence].
Qed.

Lemma writes_keep_primary_key_witness :
  let sent := (sendMessage (Some "u") "m9" 10 "a" "hello" thread_db initial_state).2 in
  let opened := (fetchMessages (Some "a") "u" sent initial_state).2 in
  rtc store_step thread_db opened
  ∧ NoDup (message_ids thread_db)
  ∧ message_ids opened = ["m1"; "m2"; "m3"; "m9"]
  ∧ NoDup (message_ids opened).
Proof.
  intros sent opened.
  assert (rtc store_step thread_db opened) as Hsteps.
  { eapply rtc_l; [apply step_sendMessage|]. apply rtc_once, step_fetchMessages. }
  assert (NoDup (message_ids thread_db)) as Hkey.
  { apply (bool_decide_unpack _). by vm_compute. }
  split_and!; [exact Hsteps | exact Hkey | reflexivity |].
  exact (proj1 (writes_keep_primary_key thread_db opened Hsteps Hkey)).
Defined.

(** ** The outcomes of sendMessage *)

Lemma trimStart_first s c :
  first_char (trimStart s) = Some c -> is_white_space c = false.
Proof.
  induction s as [|a s IH]; simpl; [done|].
  destruct (is_white_space a) eqn:Ha; simpl; [done|]. by intros [= <-].
Qed.

Lemma trimEnd_first s : trimEnd s ≠ "" -> first_char (trimEnd s) = first_char s.
Proof.
  destruct s as [|a s]; simpl; [done|].
  destruct (trimEnd s); [|done]. by destruct (is_white_space a).
Qed.

Lemma trimEnd_last s c :
  last_char (trimEnd s) = Some c -> is_white_space c = false.
Proof.
  induction s as [|a s IH]; simpl; [done|].
  destruct (trimEnd s) as [|b t] eqn:Ht.
  - destruct (is_white_space a) eqn:Ha; simpl; [done|]. by intros [= <-].
  - exact IH.
Qed.

Lemma trim_no_outer_white_space s : no_outer_white_space (trim s).
Proof.
  unfold trim. split; intros c Hc.
  - destruct (decide (trimEnd (trimStart s) = "")) as [Hempty|Hne].
    + by rewrite Hempty in Hc.
    + rewrite (trimEnd_first _ Hne) in Hc. by eapply trimStart_first.
  - by eapply trimEnd_last.
Qed.

Lemma sendMessage_unfold auth uuid now recipientId messageText db st :
  sendMessage auth uuid now recipientId messageText db st
  = if bool_decide (trim messageText = "") then (false, st, db)
    else match auth with
         | None =>
             (false,
              setSending false
                (toast (mkToast "Send failed" "Not authenticated" "destructive")
                       (setSending true st)),
              db)
         | Some userId =>
             if has_nul messageText
             then (false,
                   setSending false
                     (toast (mkToast "Send failed" (error_message UntranslatableCharacter)
                               "destructive") (setSending true st)),
                   db)
             else
             if bool_decide (userId ∈ auth_users db)
                && bool_decide (recipientId ∈ auth_users db)
             then
               if bool_decide (uuid ∈ message_ids db)
               then (false,
                     setSending false
                       (toast (mkToast "Send failed" (error_message UniqueViolation)
                                 "destructive") (setSending true st)),
                     db)
               else (true, setSending false (setSending true st),
                     with_direct_messages
                       (direct_messages db
                        ++ [inserted_row userId uuid now recipientId messageText]) db)
             else (false,
                   setSending false
                     (toast (mkToast "Send failed" (error_message ForeignKeyViolation)
                               "destructive") (setSending true st)),
                   db)
         end.
Proof.
  unfold sendMessage, truthy. rewrite negb_involutive.
  destruct (bool_decide (trim messageText = "")); [done|].
  destruct auth as [userId|]; [|done].
  unfold insert_direct_message, can_send, message_ids. simpl.
  rewrite has_nul_trim. destruct (has_nul messageText); [done|].
  rewrite (bool_decide_eq_true_2 (Some userId = Some userId)) by done. simpl.
  destruct (bool_decide (userId ∈ auth_users db) && bool_decide (recipientId ∈ auth_users db));
    simpl; [|done].
  by destruct (bool_decide (uuid ∈ DirectMessage.id <$> direct_messages db)).
Qed.

(** X9: a send succeeds exactly when the body is not blank and holds no code
    unit 0, which the [text] column cannot store, a user is signed in,
    sender and recipient are users the store knows, and the id the store
    assigns is free. *)
Theorem sendMessage_succeeds_iff auth uuid now recipientId messageText db st :
  (sendMessage auth uuid now recipientId messageText db st).1.1 = true
  <-> trim messageText ≠ ""
      ∧ has_nul messageText = false
      ∧ ∃ userId, auth = Some userId
                  ∧ userId ∈ auth_users db
                  ∧ recipientId ∈ auth_users db
                  ∧ (uuid ∉ message_ids db).
Proof.
  rewrite sendMessage_unfold.
  case_bool_decide as Hblank; [by split; [|intros [? _]]|].
  destruct auth as [userId|]; [|split; [done | by intros (_ & _ & ? & ? & _)]].
  destruct (has_nul messageText) eqn:Hnul; [split; [done | by intros (_ & ? & _)]|].
  destruct (decide (userId ∈ auth_users db)) as [Hu|Hu];
    destruct (decide (recipientId ∈ auth_users db)) as [Hr|Hr];
    destruct (decide (uuid ∈ message_ids db)) as [Hid|Hid];
    rewrite ?(bool_decide_eq_true_2 _ Hu), ?(bool_decide_eq_false_2 _ Hu),
            ?(bool_decide_eq_true_2 _ Hr), ?(bool_decide_eq_false_2 _ Hr); simpl;
    rewrite ?(bool_decide_eq_true_2 _ Hid), ?(bool_decide_eq_false_2 _ Hid); simpl.
  all: split;
    [first [discriminate | intros _; split; [done|]; split; [done|]; by exists userId]
    |intros (_ & _ & u & [= <-] & Hu' & Hr' & Hid'); done].
Qed.

(** X10: a send that fails writes nothing and changes neither the thread nor the
    conversation list shown.  For a blank body it leaves the component state
    as it is; otherwise it ends with [sending] cleared and one more toast,
    titled "Send failed", with a description. *)
Theorem sendMessage_failure auth uuid now recipientId messageText db st :
  let result := sendMessage auth uuid now recipientId messageText db st in
  result.1.1 = false ->
  result.2 = db
  ∧ messages result.1.2 = messages st
  ∧ conversations result.1.2 = conversations st
  ∧ (trim messageText = "" -> result.1.2 = st)
  ∧ (trim messageText ≠ "" ->
     sending result.1.2 = false
     ∧ ∃ t, toasts result.1.2 = toasts st ++ [t]
            ∧ title t = "Send failed"
            ∧ description t ≠ ""
            ∧ variant t = "destructive").
Proof.
  intros result. unfold result. rewrite sendMessage_unfold.
  case_bool_decide as Hblank; [by intros _|].
  destruct auth as [userId|].
  - destruct (has_nul messageText);
      [|destruct (_ && _); [case_bool_decide as Hid|]]; cbn [fst snd]; [| |done|];
      intros _; (split_and!; [done|done|done|done|]);
      intros _; (split; [done|]); eexists; (split_and!; [reflexivity|done|done|done]).
  - intros _. split_and!; [done|done|done|done|].
    intros _. split; [done|]. eexists. split_and!; [reflexivity|done|done|done].
Qed.

Lemma sendMessage_failure_witness :
  let result := sendMessage None "m9" 10 "a" "hello" thread_db initial_state in
  result.1.1 = false
  ∧ result.2 = thread_db
  ∧ toasts result.1.2 = [mkToast "Send failed" "Not authenticated" "destructive"].
Proof.
  intros result.
  assert (result.1.1 = false) as Hfailed by reflexivity.
  destruct (sendMessage_failure None "m9" 10 "a" "hello" thread_db initial_state Hfailed)
    as (Hstore & _).
  split_and!; [exact Hfailed | exact Hstore | reflexivity].
Defined.

(** X11: a send that succeeds adds one row to the store and nothing else: the
    sender is the signed-in user, the row is unread, and its body is the text
    without the white space around it, which is not empty and neither starts
    nor ends with white space.  The component state ends with [sending]
    cleared and no toast. *)
Theorem sendMessage_success auth uuid now recipientId messageText db st :
  let result := sendMessage auth uuid now recipientId messageText db st in
  result.1.1 = true ->
  ∃ userId body,
    auth = Some userId
    ∧ body = trim messageText
    ∧ body ≠ ""
    ∧ no_outer_white_space body
    ∧ result.2 = with_direct_messages
                   (direct_messages db
                    ++ [DirectMessage.mk uuid userId recipientId body false now None None])
                   db
    ∧ result.1.2 = setSending false (setSending true st).
Proof.
  intros result. unfold result. rewrite sendMessage_unfold.
  case_bool_decide as Hblank; [done|].
  destruct auth as [userId|]; [|done].
  destruct (has_nul messageText); [done|].
  destruct (_ && _); [case_bool_decide as Hid|]; cbn [fst snd]; try done.
  intros _. exists userId, (trim messageText).
  split_and!; [done|done|done|apply trim_no_outer_white_space|done|done].
Qed.

Lemma sendMessage_success_witness :
  let result := sendMessage (Some "u") "m9" 10 "a" "  hello there " thread_db initial_state in
  result.1.1 = true
  ∧ direct_messages result.2
    = direct_messages thread_db
      ++ [DirectMessage.mk "m9" "u" "a" "hello there" false 10 None None].
Proof.
  intros result.
  assert (result.1.1 = true) as Hsent by reflexivity.
  destruct (sendMessage_success (Some "u") "m9" 10 "a" "  hello there "
              thread_db initial_state Hsent)
    as (userId & body & Hauth & Hbody & _ & _ & Hstore & _).
  split; [exact Hsent|].
  injection Hauth as <-. fold result in Hstore. rewrite Hstore, Hbody. reflexivity.
Defined.

(** ** What the subscription callback touches *)

Lemma on_insert_not_involved userId sel newMsg db st :
  involves userId newMsg = false -> on_insert userId sel newMsg db st = (st, db).
Proof.
  unfold involves, on_insert. intros [Hs Hr]%orb_false_elim.
  apply bool_decide_eq_false_1 in Hs, Hr.
  by rewrite !bool_decide_eq_true_2 by done.
Qed.

Lemma on_insert_involved userId sel newMsg db st :
  involves userId newMsg ->
  on_insert userId sel newMsg db st
  = if viewing sel newMsg then
      let db1 := if bool_decide (DirectMessage.recipient_id newMsg = userId)
                 then (update_is_read_eq (Some userId) (DirectMessage.id newMsg) db).2
                 else db in
      (fetchConversations (Some userId) db1
         (setMessages (messages st ++ [enrich db newMsg]) st), db1)
    else (fetchConversations (Some userId) db st, db).
Proof.
  unfold involves, on_insert. intros [Hs | Hr]%orb_True.
  - apply bool_decide_unpack in Hs.
    rewrite (bool_decide_eq_false_2 (_ ≠ userId)) by auto. simpl.
    by destruct (viewing sel newMsg).
  - apply bool_decide_unpack in Hr.
    rewrite (bool_decide_eq_false_2 (DirectMessage.recipient_id newMsg ≠ userId)) by auto.
    rewrite andb_false_r. by destruct (viewing sel newMsg).
Qed.



Lemma viewing_selected sel newMsg :
  viewing sel newMsg ->
  ∃ d, sel = Some d ∧ d ≠ ""
       ∧ (DirectMessage.sender_id newMsg = d ∨ DirectMessage.recipient_id newMsg = d).
Proof.
  unfold viewing, truthy. destruct sel as [d|]; [|done].
  rewrite andb_True, negb_True, orb_True, !bool_decide_spec.
  intros [Hd Hmatch]. exists d. done.
Qed.

(** X13: the callback appends at most the announced message to the thread shown,
    with a sender name filled in, and only when the message involves the
    session user and a conversation is selected; when the selected
    conversation is with another user, the message is one of that thread. *)
Theorem on_insert_thread userId sel newMsg db st :
  let shown := messages (on_insert userId sel newMsg db st).1 in
  shown = messages st
  ∨ (shown = messages st ++ [enrich db newMsg]
     ∧ with_sender_name newMsg (enrich db newMsg)
     ∧ involves userId newMsg
     ∧ ∃ d, sel = Some d ∧ d ≠ "" ∧ (d ≠ userId -> in_thread userId d newMsg)).
Proof.
  intros shown. unfold shown.
  destruct (involves userId newMsg) eqn:Hinv;
    [|left; by rewrite on_insert_not_involved].
  rewrite on_insert_involved by (by rewrite Hinv).
  destruct (viewing sel newMsg) eqn:Hviewing; [|by left].
  right. split_and!; [done | apply enrich_with_sender_name | done |].
  destruct (viewing_selected sel newMsg) as (d & -> & Hd & Hmatch); [by rewrite Hviewing|].
  exists d. split_and!; [done|done|]. intros Hother.
  apply Is_true_eq_left in Hinv. unfold involves in Hinv. unfold in_thread.
  rewrite orb_True, !bool_decide_spec in Hinv.
  rewrite orb_True, !andb_True, !bool_decide_spec.
  intuition congruence.
Qed.

(** X14: an announcement that arrives twice for the open conversation is not
    recognised: the store and the conversation list end as after the first
    arrival, and the thread shown carries the message twice. *)
Theorem on_insert_duplicate userId sel newMsg db st :
  involves userId newMsg ->
  viewing sel newMsg ->
  let once := on_insert userId sel newMsg db st in
  let twice := on_insert userId sel newMsg once.2 once.1 in
  messages twice.1 = messages st ++ [enrich db newMsg; enrich db newMsg]
  ∧ twice.2 = once.2
  ∧ conversations twice.1 = conversations once.1.
Proof.
  intros Hinv Hviewing once twice. unfold twice, once.
  apply Is_true_eq_true in Hviewing.
  rewrite !on_insert_involved by done. rewrite !Hviewing. cbv zeta. cbn [fst snd].
  destruct (bool_decide (DirectMessage.recipient_id newMsg = userId)).
  - unfold update_is_read_eq. rewrite update_is_read_in_idempotent.
    split_and!; [|done|done]. simpl. by rewrite <- app_assoc.
  - split_and!; [|done|done]. simpl. by rewrite <- app_assoc.
Qed.

Lemma on_insert_duplicate_witness :
  let once := on_insert "u" (Some "a") msg_from_a thread_db initial_state in
  let twice := on_insert "u" (Some "a") msg_from_a once.2 once.1 in
  involves "u" msg_from_a
  ∧ viewing (Some "a") msg_from_a
  ∧ DirectMessage.id <$> messages twice.1 = ["m2"; "m2"]
  ∧ twice.2 = once.2.
Proof.
  intros once twice.
  assert (involves "u" msg_from_a) as Hinv by exact I.
  assert (viewing (Some "a") msg_from_a) as Hviewing by exact I.
  destruct (on_insert_duplicate "u" (Some "a") msg_from_a thread_db initial_state
              Hinv Hviewing) as (Hshown & Hstore & _).
  split_and!; [exact Hinv | exact Hviewing | | exact Hstore].
  fold once twice in Hshown. rewrite Hshown. reflexivity.
Defined.

(** ** From a send to the conversation lists *)

Lemma sort_by_snoc_first le l x :
  (∀ y, y ∈ l -> le y x = false) -> sort_by le (l ++ [x]) = x :: sort_by le l.
Proof.
  induction l as [|y l IH]; intros Hx; simpl; [done|].
  fold (sort_by le (l ++ [x])). fold (sort_by le l).
  rewrite IH by (intros z Hz; by apply Hx, list_elem_of_further).
  simpl. by rewrite (Hx y) by apply list_elem_of_here.
Qed.

Lemma select_involving_insert_newest userId row db :
  involves userId row ->
  (∀ m, m ∈ direct_messages db ->
        DirectMessage.created_at m < DirectMessage.created_at row) ->
  select_involving (Some userId) userId
    (with_direct_messages (direct_messages db ++ [row]) db)
  = row :: select_involving (Some userId) userId db.
Proof.
  intros Hinv Hnewest. unfold select_involving, order_created_at. simpl.
  rewrite filter_app, (filter_cons_True _ row), filter_nil
    by (by rewrite can_view_involves).
  apply sort_by_snoc_first. intros m [_ Hm]%list_elem_of_filter.
  unfold created_desc. apply Z.leb_gt. by apply Hnewest.
Qed.

Lemma skeleton_loop_prefix profileMap userId msgs : ∀ sk,
  ∃ more, foldl (skeleton_step profileMap userId) sk msgs = sk ++ more.
Proof.
  induction msgs as [|msg msgs IH]; intros sk; simpl.
  - exists []. by rewrite app_nil_r.
  - unfold skeleton_step at 2. case_bool_decide; [apply IH|].
    destruct (IH (sk ++ [(otherDoctorId userId msg,
                          new_conversation profileMap userId msg)])) as [more ->].
    eexists. by rewrite <- app_assoc.
Qed.

Lemma forget_unread_fields c :
  Conversation.doctor_id (forget_unread c) = Conversation.doctor_id c
  ∧ Conversation.last_message (forget_unread c) = Conversation.last_message c
  ∧ Conversation.last_message_time (forget_unread c) = Conversation.last_message_time c.
Proof. done. Qed.

Lemma skeleton_loop_head profileMap userId msg msgs :
  ∃ more,
    foldl (skeleton_step profileMap userId) [] (msg :: msgs)
    = (otherDoctorId userId msg, new_conversation profileMap userId msg) :: more.
Proof.
  change (foldl (skeleton_step profileMap userId) [] (msg :: msgs))
    with (foldl (skeleton_step profileMap userId)
            (skeleton_step profileMap userId [] msg) msgs).
  assert (skeleton_step profileMap userId [] msg
          = [(otherDoctorId userId msg, new_conversation profileMap userId msg)]) as ->.
  { unfold skeleton_step. by rewrite bool_decide_eq_false_2 by apply not_elem_of_nil. }
  destruct (skeleton_loop_prefix profileMap userId msgs
              [(otherDoctorId userId msg, new_conversation profileMap userId msg)])
    as [more ->].
  by exists more.
Qed.

(** The first message of the store's answer makes the first entry. *)
Lemma build_conversations_head profileMap userId msg msgs :
  ∃ c rest,
    build_conversations profileMap userId (msg :: msgs) = c :: rest
    ∧ Conversation.doctor_id c = otherDoctorId userId msg
    ∧ Conversation.last_message c = DirectMessage.message msg
    ∧ Conversation.last_message_time c = DirectMessage.created_at msg.
Proof.
  pose proof (skeleton_values
                (foldl (conversation_step profileMap userId) [] (msg :: msgs))) as Hvalues.
  rewrite loop_skeleton in Hvalues.
  change (skeleton []) with (@nil (string * Conversation.t)) in Hvalues.
  destruct (skeleton_loop_head profileMap userId msg msgs) as [more Hmore].
  rewrite Hmore in Hvalues.
  unfold build_conversations.
  destruct (cm_values (foldl (conversation_step profileMap userId) [] (msg :: msgs)))
    as [|c rest]; [done|].
  apply (f_equal head) in Hvalues. cbn [head fmap list_fmap snd] in Hvalues.
  apply (inj Some) in Hvalues. exists c, rest.
  destruct (forget_unread_fields c) as (Hid & Hbody & Htime).
  rewrite <- Hvalues in Hid. rewrite <- Hvalues in Hbody. rewrite <- Hvalues in Htime.
  by split_and!.
Qed.

Lemma rescan_insert_newest userId row db :
  involves userId row ->
  (∀ m, m ∈ direct_messages db ->
        DirectMessage.created_at m < DirectMessage.created_at row) ->
  let db' := with_direct_messages (direct_messages db ++ [row]) db in
  ∃ c rest,
    rescan userId db' = c :: rest
    ∧ Conversation.doctor_id c = otherDoctorId userId row
    ∧ Conversation.last_message c = DirectMessage.message row
    ∧ Conversation.last_message_time c = DirectMessage.created_at row
    ∧ Conversation.unread_count c
      = (unreadCount userId (otherDoctorId userId row) db
         + if unread_from userId (otherDoctorId userId row) row then 1 else 0)%nat.
Proof.
  intros Hinv Hnewest db'.
  assert (∃ c rest,
            rescan userId db' = c :: rest
            ∧ Conversation.doctor_id c = otherDoctorId userId row
            ∧ Conversation.last_message c = DirectMessage.message row
            ∧ Conversation.last_message_time c = DirectMessage.created_at row)
    as (c & rest & Heq & Hid & Hbody & Htime).
  { unfold db'. rewrite rescan_eq. cbv zeta.
    rewrite select_involving_insert_newest by done. apply build_conversations_head. }
  exists c, rest. split_and!; [done|done|done|done|].
  assert (c ∈ rescan userId db') as Hc by (rewrite Heq; apply list_elem_of_here).
  rewrite (rescan_unread_count _ _ _ Hc), Hid.
  unfold unreadCount, db'. simpl. rewrite filter_app, length_app, filter_cons.
  by destruct (unread_from userId (otherDoctorId userId row) row).
Qed.

Lemma sendMessage_stored sender uuid now recipientId messageText db st :
  (sendMessage (Some sender) uuid now recipientId messageText db st).1.1 = true ->
  (sendMessage (Some sender) uuid now recipientId messageText db st).2
  = with_direct_messages
      (direct_messages db ++ [inserted_row sender uuid now recipientId messageText]) db.
Proof.
  intros Hsent.
  destruct (sendMessage_cases (Some sender) uuid now recipientId messageText db st)
    as [_ [[Hfailed _] | (sender' & [= <-] & _ & Hstore)]]; [congruence | done].
Qed.

(** X15: when a send succeeds with a [created_at] later than every stored one,
    a rescan for the recipient puts the sender's conversation first, with the
    trimmed text as last message and one unread message more than before;
    a rescan for the sender, when they are not the recipient, puts the
    recipient's conversation first, with the same last message and the unread
    count it had. *)
Theorem sendMessage_then_rescan sender uuid now recipientId messageText db st :
  let db' := (sendMessage (Some sender) uuid now recipientId messageText db st).2 in
  (sendMessage (Some sender) uuid now recipientId messageText db st).1.1 = true ->
  (∀ m, m ∈ direct_messages db -> DirectMessage.created_at m < now) ->
  (∃ c rest,
      rescan recipientId db' = c :: rest
      ∧ Conversation.doctor_id c = sender
      ∧ Conversation.last_message c = trim messageText
      ∧ Conversation.last_message_time c = now
      ∧ Conversation.unread_count c = S (unreadCount recipientId sender db))
  ∧ (sender ≠ recipientId ->
     ∃ c rest,
       rescan sender db' = c :: rest
       ∧ Conversation.doctor_id c = recipientId
       ∧ Conversation.last_message c = trim messageText
       ∧ Conversation.last_message_time c = now
       ∧ Conversation.unread_count c = unreadCount sender recipientId db).
Proof.
  intros db' Hsent Hnewest. unfold db'. rewrite (sendMessage_stored _ _ _ _ _ _ _ Hsent).
  set (row := inserted_row sender uuid now recipientId messageText).
  split.
  - destruct (rescan_insert_newest recipientId row db) as (c & rest & Hlist & Hid & Hb & Ht & Hn).
    { unfold involves, row. simpl. rewrite (bool_decide_eq_true_2 (recipientId = recipientId)) by done.
      by rewrite orb_true_r. }
    { exact Hnewest. }
    assert (otherDoctorId recipientId row = sender) as Hother.
    { unfold otherDoctorId, row. simpl. by case_bool_decide. }
    rewrite Hother in Hid. rewrite Hother in Hn.
    exists c, rest. split_and!; [done|done|done|done|].
    rewrite Hn. unfold unread_from, row. simpl.
    rewrite !bool_decide_eq_true_2 by done. simpl. lia.
  - intros Hne.
    destruct (rescan_insert_newest sender row db) as (c & rest & Hlist & Hid & Hb & Ht & Hn).
    { unfold involves, row. simpl. by rewrite (bool_decide_eq_true_2 (sender = sender)). }
    { exact Hnewest. }
    assert (otherDoctorId sender row = recipientId) as Hother.
    { unfold otherDoctorId, row. simpl. by rewrite bool_decide_eq_true_2. }
    rewrite Hother in Hid. rewrite Hother in Hn.
    exists c, rest. split_and!; [done|done|done|done|].
    rewrite Hn. unfold unread_from, row. simpl.
    rewrite (bool_decide_eq_false_2 (recipientId = sender)) by auto. simpl. lia.
Qed.

Lemma sendMessage_then_rescan_witness :
  let db' := (sendMessage (Some "b") "m9" 10 "u" " Hello " thread_db initial_state).2 in
  (sendMessage (Some "b") "m9" 10 "u" " Hello " thread_db initial_state).1.1 = true
  ∧ (∀ m, m ∈ direct_messages thread_db -> DirectMessage.created_at m < 10)
  ∧ ∃ c rest,
      rescan "u" db' = c :: rest
      ∧ Conversation.doctor_id c = "b"
      ∧ Conversation.last_message c = "Hello"
      ∧ Conversation.unread_count c = 2%nat.
Proof.
  intros db'.
  assert ((sendMessage (Some "b") "m9" 10 "u" " Hello " thread_db initial_state).1.1 = true)
    as Hsent by reflexivity.
  assert (∀ m, m ∈ direct_messages thread_db -> DirectMessage.created_at m < 10) as Hnewest.
  { intros m Hm. simpl in Hm.
    repeat (apply elem_of_cons in Hm as [-> | Hm]; [simpl; lia|]).
    by apply elem_of_nil in Hm. }
  split; [exact Hsent|]. split; [exact Hnewest|].
  destruct (sendMessage_then_rescan "b" "m9" 10 "u" " Hello " thread_db initial_state
              Hsent Hnewest) as [(c & rest & Hlist & Hid & Hbody & _ & Hunread) _].
  exists c, rest. split_and!; [exact Hlist | exact Hid | exact Hbody | exact Hunread].
Defined.

(** X16: a send between two other users changes nothing in a user's rescan. *)
Theorem sendMessage_between_others userId auth uuid now recipientId messageText db st :
  auth ≠ Some userId ->
  recipientId ≠ userId ->
  rescan userId (sendMessage auth uuid now recipientId messageText db st).2
  = rescan userId db.
Proof.
  intros Hauth Hrecipient.
  destruct (sendMessage_cases auth uuid now recipientId messageText db st)
    as [_ [[_ ->] | (sender & -> & _ & ->)]]; [done|].
  apply rescan_insert_other. unfold involves, inserted_row. simpl.
  rewrite (bool_decide_eq_false_2 (sender = userId)) by congruence.
  by rewrite (bool_decide_eq_false_2 (recipientId = userId)).
Qed.

Lemma sendMessage_between_others_witness :
  Some "a" ≠ Some "u"
  ∧ "b" ≠ "u"
  ∧ direct_messages (sendMessage (Some "a") "m9" 10 "b" "hi" thread_db initial_state).2
    ≠ direct_messages thread_db
  ∧ rescan "u" (sendMessage (Some "a") "m9" 10 "b" "hi" thread_db initial_state).2
    = rescan "u" thread_db.
Proof.
  assert (Some "a" ≠ Some "u") as Hauth by discriminate.
  assert ("b" ≠ "u") as Hrecipient by discriminate.
  split_and!; [exact Hauth | exact Hrecipient | discriminate |].
  exact (sendMessage_between_others "u" (Some "a") "m9" 10 "b" "hi" thread_db initial_state
           Hauth Hrecipient).
Defined.

(** ** A message arrives at a session *)

Lemma sendMessage_stored_fresh sender uuid now recipientId messageText db st :
  (sendMessage (Some sender) uuid now recipientId messageText db st).1.1 = true ->
  uuid ∉ message_ids db.
Proof.
  rewrite sendMessage_unfold.
  destruct (bool_decide (trim messageText = "")); [done|].
  destruct (has_nul messageText); [done|].
  destruct (_ && _); [|done]. by case_bool_decide.
Qed.

(** What a session of [userId] makes of a message that another user sent. *)
Lemma apply_event_delivered userId sender uuid now recipientId messageText sess db :
  sender ≠ userId ->
  (sendMessage (Some sender) uuid now recipientId messageText db initial_state).1.1 = true ->
  apply_event userId (Sent sender uuid now recipientId messageText) (sess, db)
  = let after :=
      on_insert userId (selectedDoctorId sess)
        (inserted_row sender uuid now recipientId messageText)
        (with_direct_messages
           (direct_messages db
            ++ [inserted_row sender uuid now recipientId messageText]) db)
        (hook sess) in
    (mkSession (selectedDoctorId sess) after.1, after.2).
Proof.
  intros Hother Hsent. unfold apply_event.
  rewrite (bool_decide_eq_false_2 _ Hother).
  pose proof (sendMessage_stored _ _ _ _ _ _ _ Hsent) as Hstore.
  destruct (sendMessage (Some sender) uuid now recipientId messageText db initial_state)
    as [[ok st'] db'].
  cbn [fst snd] in Hsent, Hstore. subst ok db'. cbv zeta.
  by destruct (on_insert _ _ _ _ _).
Qed.

Lemma viewing_elsewhere sel sender userId row :
  DirectMessage.sender_id row = sender ->
  DirectMessage.recipient_id row = userId ->
  sel ≠ Some sender -> sel ≠ Some userId ->
  viewing sel row = false.
Proof.
  intros Hs Hr Hsender Huser. unfold viewing. destruct sel as [d|]; [|done].
  rewrite Hs, Hr.
  rewrite (bool_decide_eq_false_2 (sender = d)) by congruence.
  rewrite (bool_decide_eq_false_2 (userId = d)) by congruence.
  by rewrite andb_false_r.
Qed.

(** X17: a message from another user that arrives while neither that user's
    conversation nor the user's own is selected stays unread in the store:
    the thread shown is as it was, and the conversation list is refreshed
    with the sender's conversation first, its unread count one more than
    before. *)
Theorem arrival_while_elsewhere userId sender uuid now messageText sess db :
  sender ≠ userId ->
  (sendMessage (Some sender) uuid now userId messageText db initial_state).1.1 = true ->
  (∀ m, m ∈ direct_messages db -> DirectMessage.created_at m < now) ->
  selectedDoctorId sess ≠ Some sender ->
  selectedDoctorId sess ≠ Some userId ->
  let after := apply_event userId (Sent sender uuid now userId messageText) (sess, db) in
  messages (hook after.1) = messages (hook sess)
  ∧ direct_messages after.2
    = direct_messages db ++ [inserted_row sender uuid now userId messageText]
  ∧ ∃ c rest,
      conversations (hook after.1) = c :: rest
      ∧ Conversation.doctor_id c = sender
      ∧ Conversation.last_message c = trim messageText
      ∧ Conversation.unread_count c = S (unreadCount userId sender db).
Proof.
  intros Hother Hsent Hnewest Hsel Hself after. unfold after.
  rewrite (apply_event_delivered _ _ _ _ _ _ _ _ Hother Hsent). cbv zeta.
  set (row := inserted_row sender uuid now userId messageText).
  assert (involves userId row) as Hinv.
  { unfold involves, row. simpl. rewrite (bool_decide_eq_true_2 (userId = userId)) by done.
    by rewrite orb_true_r. }
  rewrite (on_insert_involved _ _ _ _ _ Hinv).
  rewrite (viewing_elsewhere _ sender userId row) by done.
  cbn [fst snd hook]. rewrite fetchConversations_conversations.
  split_and!; [done|done|].
  destruct (rescan_insert_newest userId row db Hinv Hnewest)
    as (c & rest & Hlist & Hid & Hbody & _ & Hunread).
  assert (otherDoctorId userId row = sender) as Hcounterpart.
  { unfold otherDoctorId, row. simpl. by rewrite bool_decide_eq_false_2. }
  rewrite Hcounterpart in Hid. rewrite Hcounterpart in Hunread.
  exists c, rest. split_and!; [done|done|done|].
  rewrite Hunread. unfold unread_from, row. simpl.
  rewrite !bool_decide_eq_true_2 by done. simpl. lia.
Qed.

Lemma arrival_while_elsewhere_witness :
  let sess := mount "u" thread_db in
  let after := apply_event "u" (Sent "b" "m9" 10 "u" "ping") (sess, thread_db) in
  "b" ≠ "u"
  ∧ (sendMessage (Some "b") "m9" 10 "u" "ping" thread_db initial_state).1.1 = true
  ∧ (∀ m, m ∈ direct_messages thread_db -> DirectMessage.created_at m < 10)
  ∧ selectedDoctorId sess ≠ Some "b"
  ∧ selectedDoctorId sess ≠ Some "u"
  ∧ ∃ c rest,
      conversations (hook after.1) = c :: rest
      ∧ Conversation.doctor_id c = "b"
      ∧ Conversation.unread_count c = 2%nat.
Proof.
  intros sess after.
  assert ("b" ≠ "u") as Hother by discriminate.
  assert ((sendMessage (Some "b") "m9" 10 "u" "ping" thread_db initial_state).1.1 = true)
    as Hsent by reflexivity.
  assert (∀ m, m ∈ direct_messages thread_db -> DirectMessage.created_at m < 10) as Hnewest.
  { intros m Hm. simpl in Hm.
    repeat (apply elem_of_cons in Hm as [-> | Hm]; [simpl; lia|]).
    by apply elem_of_nil in Hm. }
  assert (selectedDoctorId sess ≠ Some "b") as Hsel by discriminate.
  assert (selectedDoctorId sess ≠ Some "u") as Hself by discriminate.
  split_and!; [exact Hother | exact Hsent | exact Hnewest | exact Hsel | exact Hself |].
  destruct (arrival_while_elsewhere "u" "b" "m9" 10 "ping" sess thread_db
              Hother Hsent Hnewest Hsel Hself) as (_ & _ & c & rest & Hlist & Hid & _ & Hunread).
  exists c, rest. split_and!; [exact Hlist | exact Hid | exact Hunread].
Defined.

Lemma update_is_read_eq_fresh_row userId row db :
  DirectMessage.id row ∉ message_ids db ->
  DirectMessage.recipient_id row = userId ->
  (update_is_read_eq (Some userId) (DirectMessage.id row)
     (with_direct_messages (direct_messages db ++ [row]) db)).2
  = with_direct_messages
      (direct_messages db ++ [DirectMessage.set_is_read true row]) db.
Proof.
  intros Hfresh Hrec.
  assert (∀ m, m ∈ direct_messages db ->
               marks_read (Some userId) [DirectMessage.id row] m = false) as Hold.
  { intros m Hm. rewrite marks_read_announced. unfold announced_to.
    rewrite bool_decide_eq_false_2; [done|].
    intros Hid. apply Hfresh. unfold message_ids. rewrite <- Hid.
    by apply list_elem_of_fmap_2. }
  assert (marks_read (Some userId) [DirectMessage.id row] row = true) as Hrow.
  { rewrite marks_read_announced. unfold announced_to.
    by rewrite !bool_decide_eq_true_2. }
  unfold update_is_read_eq, update_is_read_in, with_direct_messages.
  cbn [snd direct_messages auth_users profiles hospitals]. f_equal.
  rewrite !filter_app.
  rewrite (filter_all _ (direct_messages db)) by (intros m Hm; by rewrite (Hold m Hm)).
  rewrite (filter_none _ (direct_messages db))
    by (intros m Hm; rewrite (Hold m Hm); by intros []).
  rewrite (filter_cons_False _ row) by (rewrite Hrow; by intros []).
  rewrite (filter_cons_True _ row) by (by rewrite Hrow).
  by rewrite !filter_nil, app_nil_r.
Qed.

(** X18: a message from the counterpart of the selected conversation goes from
    the send to the open thread in one piece: the store gains the row,
    already read; the thread shown gains the message with a sender name; and
    the refreshed conversation list has that conversation first, with the
    new text as last message and the unread count it had. *)
Theorem arrival_while_open userId sender uuid now messageText sess db :
  sender ≠ userId ->
  sender ≠ "" ->
  (sendMessage (Some sender) uuid now userId messageText db initial_state).1.1 = true ->
  (∀ m, m ∈ direct_messages db -> DirectMessage.created_at m < now) ->
  selectedDoctorId sess = Some sender ->
  let row := inserted_row sender uuid now userId messageText in
  let after := apply_event userId (Sent sender uuid now userId messageText) (sess, db) in
  (∃ shown, messages (hook after.1) = messages (hook sess) ++ [shown]
            ∧ with_sender_name row shown)
  ∧ direct_messages after.2 = direct_messages db ++ [DirectMessage.set_is_read true row]
  ∧ ∃ c rest,
      conversations (hook after.1) = c :: rest
      ∧ Conversation.doctor_id c = sender
      ∧ Conversation.last_message c = trim messageText
      ∧ Conversation.unread_count c = unreadCount userId sender db.
Proof.
  intros Hother Hsender Hsent Hnewest Hsel row after. unfold after.
  rewrite (apply_event_delivered _ _ _ _ _ _ _ _ Hother Hsent). cbv zeta.
  fold row. rewrite Hsel.
  rewrite on_insert_viewing; [|unfold truthy; by rewrite bool_decide_eq_false_2|done|done].
  cbv zeta. cbn [fst snd hook]. rewrite fetchConversations_conversations.
  rewrite (update_is_read_eq_fresh_row userId row db);
    [|by apply (sendMessage_stored_fresh _ _ _ _ _ _ _ Hsent)|done].
  split_and!.
  - eexists. split; [reflexivity | apply enrich_with_sender_name].
  - done.
  - destruct (rescan_insert_newest userId (DirectMessage.set_is_read true row) db)
      as (c & rest & Hlist & Hid & Hbody & _ & Hunread).
    { unfold involves, row. simpl. rewrite (bool_decide_eq_true_2 (userId = userId)) by done.
      by rewrite orb_true_r. }
    { exact Hnewest. }
    assert (otherDoctorId userId (DirectMessage.set_is_read true row) = sender) as Hcounterpart.
    { unfold otherDoctorId, row. simpl. by rewrite bool_decide_eq_false_2. }
    rewrite Hcounterpart in Hid. rewrite Hcounterpart in Hunread.
    exists c, rest. split_and!; [done|done|done|].
    rewrite Hunread. unfold unread_from. simpl. rewrite andb_false_r. lia.
Qed.

Lemma arrival_while_open_witness :
  let opened := apply_event "u" (Opened "a") (mount "u" thread_db, thread_db) in
  let after := apply_event "u" (Sent "a" "m9" 10 "u" "ping") opened in
  selectedDoctorId opened.1 = Some "a"
  ∧ (sendMessage (Some "a") "m9" 10 "u" "ping" opened.2 initial_state).1.1 = true
  ∧ (∃ c rest,
       conversations (hook after.1) = c :: rest
       ∧ Conversation.doctor_id c = "a"
       ∧ Conversation.last_message c = "ping"
       ∧ Conversation.unread_count c = 0%nat).
Proof.
  intros opened after.
  assert ("a" ≠ "u") as Hother by discriminate.
  assert ("a" ≠ "") as Hsender by discriminate.
  assert ((sendMessage (Some "a") "m9" 10 "u" "ping" opened.2 initial_state).1.1 = true)
    as Hsent by reflexivity.
  assert (∀ m, m ∈ direct_messages opened.2 -> DirectMessage.created_at m < 10) as Hnewest.
  { intros m Hm. vm_compute in Hm.
    repeat (apply elem_of_cons in Hm as [-> | Hm]; [simpl; lia|]).
    by apply elem_of_nil in Hm. }
  assert (selectedDoctorId opened.1 = Some "a") as Hsel by reflexivity.
  split; [exact Hsel|]. split; [exact Hsent|].
  destruct (arrival_while_open "u" "a" "m9" 10 "ping" opened.1 opened.2
              Hother Hsender Hsent Hnewest Hsel)
    as (_ & _ & c & rest & Hlist & Hid & Hbody & Hunread).
  exists c, rest. split_and!; [exact Hlist | exact Hid | exact Hbody | exact Hunread].
Defined.
